(** * openai-image-cli: the request resolver and the fetch-and-persist loop

    A shallow embedding of [src/index.ts] (the commander-based command line
    tool) and the properties its specification states about it.

    The program is two functions composed linearly:
    [parseArgs] turns the options and positional arguments that commander
    hands back into a [Params] record, and [generateImages] checks the
    credential and the prompt, applies the single-image policy, performs one
    generation call and then downloads and writes every returned image.

    Everything the program does to the outside world (console output, file
    reads and writes, the generation call, the downloads, [process.exit]) is
    recorded in a trace of events; everything the outside world answers is
    taken from a [World] record of oracles. *)

From Stdlib Require Import String Ascii List ZArith NArith Arith Bool Lia Sorted.
From Stdlib Require Import DecimalString DecimalNat DecimalN.
Import ListNotations.

Local Open Scope string_scope.
Local Open Scope list_scope.

(** ** JavaScript primitives *)

Module JS.

(** A JavaScript string is modelled as a sequence of 8-bit code units
    (Latin-1 text).  [null]/[undefined] is [None]. *)

(** [!s] for [s : string | null | undefined]: null, undefined and the empty
    string are falsy, every other string is truthy. *)
Definition truthy (s : option string) : bool :=
  match s with
  | Some (String _ _) => true
  | Some EmptyString => false
  | None => false
  end.

(** The numbers the program handles: the result of [parseInt] (an integer or
    [NaN]).  Integers are kept exact; the rounding of integers beyond 2^53 and
    the overflow to [Infinity] of IEEE doubles are outside the model. *)
Inductive Number : Type :=
| NaN
| Int (z : Z).

(** [a > b] on numbers: any comparison with [NaN] is false. *)
Definition gt (a b : Number) : bool :=
  match a, b with
  | Int x, Int y => (y <? x)%Z
  | _, _ => false
  end.

(** WhiteSpace and LineTerminator code units below 256:
    TAB, LF, VT, FF, CR, SP and NBSP. *)
Definition is_whitespace (c : ascii) : bool :=
  let k := nat_of_ascii c in
  (Nat.eqb k 9 || Nat.eqb k 10 || Nat.eqb k 11 || Nat.eqb k 12
   || Nat.eqb k 13 || Nat.eqb k 32 || Nat.eqb k 160)%bool.

Fixpoint trimStart (s : string) : string :=
  match s with
  | String c r => if is_whitespace c then trimStart r else s
  | EmptyString => EmptyString
  end.

Definition reverse (s : string) : string :=
  string_of_list_ascii (List.rev (list_ascii_of_string s)).

Definition trimEnd (s : string) : string :=
  reverse (trimStart (reverse s)).

(** [String.prototype.trim] *)
Definition trim (s : string) : string := trimEnd (trimStart s).

Definition digit_value (c : ascii) : option Z :=
  let k := nat_of_ascii c in
  if (Nat.leb 48 k && Nat.leb k 57)%bool then Some (Z.of_nat (k - 48))
  else None.

(** The value of the longest prefix of decimal digits. *)
Fixpoint parse_digits (acc : Z) (s : string) : Z :=
  match s with
  | String c r =>
      match digit_value c with
      | Some d => parse_digits (10 * acc + d) r
      | None => acc
      end
  | EmptyString => acc
  end.

(** [parseInt(s, 10)]: leading white space is skipped, one sign is accepted,
    then the longest run of decimal digits is read; no digit gives [NaN].
    With radix 10 a ["0x"] prefix is not stripped. *)
Definition parseInt10 (s : string) : Number :=
  let s1 := trimStart s in
  let '(sign, s2) :=
    match s1 with
    | String "-" r => ((-1)%Z, r)
    | String "+" r => (1%Z, r)
    | _ => (1%Z, s1)
    end in
  match s2 with
  | String c _ =>
      match digit_value c with
      | Some _ => Int (sign * parse_digits 0 s2)
      | None => NaN
      end
  | EmptyString => NaN
  end.

(** Decimal rendering of a natural number, as a template literal does. *)
Definition string_of_nat (k : nat) : string :=
  NilEmpty.string_of_uint (Nat.to_uint k).

Definition string_of_N (k : N) : string :=
  NilEmpty.string_of_uint (N.to_uint k).

Definition string_of_Z (z : Z) : string :=
  NilEmpty.string_of_int (Z.to_int z).

(** [String(x)] for a number. *)
Definition string_of_number (x : Number) : string :=
  match x with
  | NaN => "NaN"
  | Int z => string_of_Z z
  end.

Definition is_digit (c : ascii) : bool :=
  let k := nat_of_ascii c in (Nat.leb 48 k && Nat.leb k 57)%bool.

Fixpoint all_digits (s : string) : bool :=
  match s with
  | String c r => (is_digit c && all_digits r)%bool
  | EmptyString => true
  end.

Definition newline : string := String (ascii_of_nat 10) EmptyString.

End JS.

(** ** Data model *)

(** [interface Params] *)
Record Params : Type := mkParams {
  prompt : option string;          (* string | null *)
  size : string;
  n : JS.Number;
  model : string
}.

(** What commander hands back after [program.parse()]: [program.opts()] and
    [program.args].  [--size], [--n] and [--model] always carry a string
    (their declared defaults are '1024x1024', '1' and 'dall-e-3');
    [--prompt] and [--prompt-file] are [undefined] unless given. *)
Record Options : Type := mkOptions {
  opt_prompt : option string;
  opt_promptFile : option string;
  opt_size : string;
  opt_n : string;
  opt_model : string
}.

Record CommandLine : Type := mkCommandLine {
  opts : Options;
  args : list string
}.

(** The argument of [openai.images.generate]. *)
Record GenerationRequest : Type := mkRequest {
  req_model : string;
  req_prompt : string;
  req_n : JS.Number;
  req_size : string
}.

(** One entry of [response.data]: its [url] may be missing. *)
Record Image : Type := mkImage {
  url : option string
}.

(** The response of the generation call: [data] may be missing. *)
Record ImagesResponse : Type := mkResponse {
  data : option (list Image)
}.

(** [error.response] of a rejected generation call: [status] and
    [data?.error?.message]. *)
Record ErrorResponse : Type := mkErrorResponse {
  status : Z;
  data_error_message : option string
}.

Record ApiError : Type := mkApiError {
  response : option ErrorResponse;
  message : string
}.

Definition Buffer : Type := list Byte.byte.

(** The outcome of an awaited promise; a rejection carries
    [error instanceof Error ? error.message : String(error)]. *)
Inductive Settled (A : Type) : Type :=
| Fulfilled (value : A)
| Rejected (reason : string).

Arguments Fulfilled {A} value.
Arguments Rejected {A} reason.

(** ** The outside world

    The collaborators of the program, as oracles.  The downloads, the clock
    and the file writes are indexed by the iteration of the download loop
    that consults them, so that the same URL or path may be answered
    differently at different times.

    [fetch_arrayBuffer] stands for [fetch(imageUrl)], [arrayBuffer()] and
    [Buffer.from] together: it is rejected when one of them throws, and
    fulfilled with the body otherwise, whatever the HTTP status (the program
    never looks at it).  [date_now] is [Date.now()], the number of
    milliseconds since the epoch, taken as a natural number.  [path_join] is
    [join] of the path module. *)
Record World : Type := mkWorld {
  env_OPENAI_API_KEY : option string;
  fs_readFile : string -> Settled string;
  images_generate : GenerationRequest -> ImagesResponse + ApiError;
  fetch_arrayBuffer : nat -> string -> Settled Buffer;
  date_now : nat -> N;
  process_cwd : string;
  path_join : string -> string -> string;
  fs_writeFile : nat -> string -> Buffer -> Settled unit
}.

(** ** Observable events and the process monad *)

Inductive Event : Type :=
| ConsoleLog (line : string)
| ConsoleError (line : string)
| ConsoleWarn (line : string)
| ReadFile (path : string)
| Generate (req : GenerationRequest)
| Fetch (target : string)
| WriteFile (path : string) (content : Buffer).

(** A computation either returns a value or has called [process.exit]. *)
Inductive Outcome (A : Type) : Type :=
| Done (value : A)
| Exited (code : Z).

Arguments Done {A} value.
Arguments Exited {A} code.

Definition Proc (A : Type) : Type := (list Event * Outcome A)%type.

Definition ret {A : Type} (a : A) : Proc A := ([], Done a).

Definition bind {A B : Type} (m : Proc A) (k : A -> Proc B) : Proc B :=
  match m with
  | (t, Done a) => let '(t', r) := k a in (t ++ t', r)
  | (t, Exited c) => (t, Exited c)
  end.

Notation "x <- m ;; k" := (bind m (fun x => k))
  (at level 61, m at next level, right associativity).
Notation "m ;; k" := (bind m (fun _ => k))
  (at level 61, right associativity).

Definition emit (e : Event) : Proc unit := ([e], Done tt).
Definition console_log (s : string) : Proc unit := emit (ConsoleLog s).
Definition console_error (s : string) : Proc unit := emit (ConsoleError s).
Definition console_warn (s : string) : Proc unit := emit (ConsoleWarn s).
Definition process_exit {A : Type} (code : Z) : Proc A := ([], Exited code).

Definition trace {A : Type} (p : Proc A) : list Event := fst p.

(** The exit status of the process: the argument of [process.exit], or 0 when
    the program runs to its end. *)
Definition exit_code {A : Type} (p : Proc A) : Z :=
  match snd p with
  | Done _ => 0%Z
  | Exited c => c
  end.

(** ** The program *)

(** [parseArgs], from [const options = program.opts()] on. *)
Definition parseArgs (w : World) (cli : CommandLine) : Proc Params :=
  let options := opts cli in
  p <- match args cli with
       | a :: _ => ret (Some a)
       | [] =>
           if JS.truthy (opt_prompt options) then ret (opt_prompt options)
           else
             match opt_promptFile options with
             | Some ((String _ _) as file) =>
                 emit (ReadFile file) ;;
                 match fs_readFile w file with
                 | Fulfilled contents => ret (Some (JS.trim contents))
                 | Rejected errorMessage =>
                     console_error ("Error reading prompt file: " ++ errorMessage) ;;
                     process_exit 1
                 end
             | _ => ret None
             end
       end ;;
  ret {| prompt := p;
         size := opt_size options;
         n := JS.parseInt10 (opt_n options);
         model := opt_model options |}.

Definition single_image_models : list string :=
  ["dall-e-3"; "gpt-image"; "gpt-image-mini"].

(** [Array.prototype.includes] on strings. *)
Definition includes (l : list string) (s : string) : bool :=
  existsb (String.eqb s) l.

Definition filename (timestamp : N) (index : nat) : string :=
  "generated_image_" ++ JS.string_of_N timestamp ++ "_"
  ++ JS.string_of_nat index ++ ".png".

(** One iteration of the download loop, for the entry at position [i]
    (counted from 0). *)
Definition download_item (w : World) (i : nat) (imageData : Image) : Proc unit :=
  let imageUrl := url imageData in
  match imageUrl with
  | Some ((String _ _) as imageUrl) =>
      console_log (JS.newline ++ "Image " ++ JS.string_of_nat (i + 1) ++ ":") ;;
      console_log ("URL: " ++ imageUrl) ;;
      emit (Fetch imageUrl) ;;
      match fetch_arrayBuffer w i imageUrl with
      | Fulfilled buffer =>
          let timestamp := date_now w i in
          let filepath := path_join w (process_cwd w) (filename timestamp (i + 1)) in
          emit (WriteFile filepath buffer) ;;
          match fs_writeFile w i filepath buffer with
          | Fulfilled _ => console_log ("Saved to: " ++ filepath)
          | Rejected errorMessage =>
              console_error ("Failed to download image " ++ JS.string_of_nat (i + 1)
                             ++ ": " ++ errorMessage)
          end
      | Rejected errorMessage =>
          console_error ("Failed to download image " ++ JS.string_of_nat (i + 1)
                         ++ ": " ++ errorMessage)
      end
  | _ =>
      console_error ("Image " ++ JS.string_of_nat (i + 1) ++ ": No URL returned")
  end.

(** [for (let i = 0; i < response.data.length; i++)], started at [i]. *)
Fixpoint download_loop (w : World) (i : nat) (entries : list Image) : Proc unit :=
  match entries with
  | [] => ret tt
  | imageData :: rest => download_item w i imageData ;; download_loop w (S i) rest
  end.

(** The [catch] of the generation call. *)
Definition report_generation_error (error : ApiError) : Proc unit :=
  console_error (JS.newline ++ "Error generating images:") ;;
  match response error with
  | Some r =>
      console_error ("Status: " ++ JS.string_of_Z (status r)) ;;
      console_error ("Message: " ++
        (if JS.truthy (data_error_message r)
         then match data_error_message r with Some m => m | None => "" end
         else message error))
  | None => console_error (message error)
  end ;;
  process_exit 1.

(** Lines 96-100: the single-image policy; returns the new [params.n]. *)
Definition apply_model_policy (params : Params) : Proc JS.Number :=
  if (includes single_image_models (model params)
      && JS.gt (n params) (JS.Int 1))%bool
  then
    console_warn ("Warning: " ++ model params
                  ++ " only supports n=1. Setting n to 1.") ;;
    ret (JS.Int 1)
  else ret (n params).

(** Lines 107-109: the progress lines before the call. *)
Definition announce (params : Params) (n' : JS.Number) (thePrompt : string) : Proc unit :=
  console_log ("Generating " ++ JS.string_of_number n' ++ " image(s) with "
               ++ model params ++ "...") ;;
  console_log ("Prompt: " ++ thePrompt) ;;
  console_log ("Size: " ++ size params).

(** Lines 120-159: what follows a fulfilled generation call. *)
Definition handle_response (w : World) (resp : ImagesResponse) : Proc unit :=
  console_log (JS.newline ++ "Successfully generated "
               ++ JS.string_of_nat
                    (match data resp with Some l => length l | None => 0 end)
               ++ " image(s):") ;;
  match data resp with
  | Some ((_ :: _) as entries) =>
      download_loop w 0 entries ;;
      console_log (JS.newline ++ "Done!")
  | _ =>
      console_error "No images were generated" ;;
      process_exit 1
  end.

(** Lines 111-169: the generation call inside its [try]/[catch]:
    first what happens once the promise settles, then the call itself. *)
Definition await_generate (w : World) (request : GenerationRequest) : Proc unit :=
  match images_generate w request with
  | inl resp => handle_response w resp
  | inr error => report_generation_error error
  end.

Definition call_generate (w : World) (request : GenerationRequest) : Proc unit :=
  emit (Generate request) ;;
  await_generate w request.

Definition generateImages (w : World) (params : Params) : Proc unit :=
  let apiKey := env_OPENAI_API_KEY w in
  (if JS.truthy apiKey then ret tt
   else
     console_error "Error: OPENAI_API_KEY environment variable is not set" ;;
     console_error "Please set your OpenAI API key: export OPENAI_API_KEY=your-key-here" ;;
     process_exit 1) ;;
  match prompt params with
  | Some ((String _ _) as thePrompt) =>
      n' <- apply_model_policy params ;;
      announce params n' thePrompt ;;
      call_generate w {| req_model := model params;
                         req_prompt := thePrompt;
                         req_n := n';
                         req_size := size params |}
  | _ =>
      console_error "Error: Prompt is required" ;;
      console_error "Use --help for usage information" ;;
      process_exit 1
  end.

(** [parseArgs().then(params => generateImages(params))] *)
Definition main (w : World) (cli : CommandLine) : Proc unit :=
  params <- parseArgs w cli ;;
  generateImages w params.

(** ** Reading a trace *)

(** The requests of the generation calls made, in order. *)
Definition generation_requests (t : list Event) : list GenerationRequest :=
  flat_map (fun e => match e with Generate r => [r] | _ => [] end) t.

(** The paths handed to [writeFile], in order. *)
Definition written_paths (t : list Event) : list string :=
  flat_map (fun e => match e with WriteFile p _ => [p] | _ => [] end) t.

(** Outbound traffic: the generation call and the downloads. *)
Definition is_network_call (e : Event) : bool :=
  match e with
  | Generate _ | Fetch _ => true
  | _ => false
  end.

Definition network_calls (t : list Event) : list Event :=
  filter is_network_call t.

(** The two lines printed when the credential is not set. *)
Definition credential_error : list Event :=
  [ConsoleError "Error: OPENAI_API_KEY environment variable is not set";
   ConsoleError "Please set your OpenAI API key: export OPENAI_API_KEY=your-key-here"].

(** The two lines printed when no prompt was resolved. *)
Definition missing_prompt_error : list Event :=
  [ConsoleError "Error: Prompt is required";
   ConsoleError "Use --help for usage information"].

(** The entry lacks a usable URL: [!imageData.url]. *)
Definition lacks_url (imageData : Image) : bool :=
  negb (JS.truthy (url imageData)).

(** The count sent to the provider for a parsed [--n] value: the
    single-image policy of [generateImages]. *)
Definition effective_count (m : string) (requested : JS.Number) : JS.Number :=
  if (includes single_image_models m && JS.gt requested (JS.Int 1))%bool
  then JS.Int 1 else requested.

(** Fixtures for the examples: the options commander produces when only
    defaults apply, and a world with a given credential and a provider that
    answers every request with the given entries.  Two prompt files exist,
    one URL cannot be fetched, every write succeeds. *)
Definition default_options : Options :=
  {| opt_prompt := None; opt_promptFile := None;
     opt_size := "1024x1024"; opt_n := "1"; opt_model := "dall-e-3" |}.

Definition sample_world (key : option string) (entries : option (list Image)) : World :=
  {| env_OPENAI_API_KEY := key;
     fs_readFile := fun p =>
       if String.eqb p "prompt.txt" then Fulfilled ("  a cat" ++ JS.newline)%string
       else if String.eqb p "blank.txt" then Fulfilled (" " ++ JS.newline)%string
       else Rejected ("ENOENT: no such file or directory, open '" ++ p ++ "'")%string;
     images_generate := fun _ => inl {| data := entries |};
     fetch_arrayBuffer := fun _ u =>
       if String.eqb u "https://img/broken" then Rejected "fetch failed"
       else Fulfilled [];
     date_now := fun i => (1700000000000 + N.of_nat i)%N;
     process_cwd := "/work";
     path_join := fun a b => (a ++ "/" ++ b)%string;
     fs_writeFile := fun _ _ _ => Fulfilled tt |}.

(** [parseArgs] either returns the parameters, having read at most the
    prompt file, or exits with status 1 on a failed read. *)
Inductive parseArgs_outcome (w : World) (cli : CommandLine) : Proc Params -> Prop :=
| parsed_without_file (p : option string) :
    parseArgs_outcome w cli
      ([], Done {| prompt := p; size := opt_size (opts cli);
                   n := JS.parseInt10 (opt_n (opts cli));
                   model := opt_model (opts cli) |})
| parsed_with_file (file contents : string) :
    fs_readFile w file = Fulfilled contents ->
    parseArgs_outcome w cli
      ([ReadFile file],
       Done {| prompt := Some (JS.trim contents); size := opt_size (opts cli);
               n := JS.parseInt10 (opt_n (opts cli));
               model := opt_model (opts cli) |})
| unreadable_file (file errorMessage : string) :
    fs_readFile w file = Rejected errorMessage ->
    parseArgs_outcome w cli
      ([ReadFile file; ConsoleError ("Error reading prompt file: " ++ errorMessage)],
       Exited 1).

(** The parameters [parseArgs] returns for a resolved prompt. *)
Definition params_of (cli : CommandLine) (p : option string) : Params :=
  {| prompt := p;
     size := opt_size (opts cli);
     n := JS.parseInt10 (opt_n (opts cli));
     model := opt_model (opts cli) |}.

(** The request [generateImages] sends for these command-line options and
    a prompt. *)
Definition request_of (cli : CommandLine) (thePrompt : string) : GenerationRequest :=
  {| req_model := opt_model (opts cli);
     req_prompt := thePrompt;
     req_n := effective_count (opt_model (opts cli))
                              (JS.parseInt10 (opt_n (opts cli)));
     req_size := opt_size (opts cli) |}.

(** What [parseArgs] leaves in the trace when it returns: nothing, or the
    successful read of the prompt file. *)
Definition read_only (w : World) (t : list Event) : Prop :=
  t = [] \/
  exists file contents,
    t = [ReadFile file] /\ fs_readFile w file = Fulfilled contents.

(** The four ways a run of [main] goes. *)
Inductive main_outcome (w : World) (cli : CommandLine) : Proc unit -> Prop :=
| stopped_unreadable_file (file errorMessage : string) :
    fs_readFile w file = Rejected errorMessage ->
    main_outcome w cli
      ([ReadFile file; ConsoleError ("Error reading prompt file: " ++ errorMessage)],
       Exited 1)
| stopped_no_credential (read : list Event) :
    JS.truthy (env_OPENAI_API_KEY w) = false ->
    read_only w read ->
    main_outcome w cli (read ++ credential_error, Exited 1)
| stopped_no_prompt (read : list Event) :
    JS.truthy (env_OPENAI_API_KEY w) = true ->
    read_only w read ->
    main_outcome w cli (read ++ missing_prompt_error, Exited 1)
| called_provider (read : list Event) (thePrompt : string) :
    JS.truthy (env_OPENAI_API_KEY w) = true ->
    thePrompt <> "" ->
    read_only w read ->
    main_outcome w cli
      (read
       ++ trace (apply_model_policy (params_of cli (Some thePrompt)))
       ++ trace (announce (params_of cli (Some thePrompt))
                          (req_n (request_of cli thePrompt)) thePrompt)
       ++ Generate (request_of cli thePrompt)
       :: trace (await_generate w (request_of cli thePrompt)),
       snd (await_generate w (request_of cli thePrompt))).


(** The events the download phase can produce: console lines, downloads
    and file writes. *)
Definition download_event (e : Event) : bool :=
  match e with
  | ConsoleLog _ | ConsoleError _ | Fetch _ | WriteFile _ _ => true
  | _ => false
  end.

(** The events that contact nothing and write nothing. *)
Definition local_event (e : Event) : bool :=
  match e with
  | ConsoleLog _ | ConsoleError _ | ConsoleWarn _ | ReadFile _ => true
  | _ => false
  end.

(** The positions, counted from [i], of the entries that carry a URL. *)
Fixpoint url_positions (i : nat) (entries : list Image) : list nat :=
  match entries with
  | [] => []
  | imageData :: rest =>
      if lacks_url imageData then url_positions (S i) rest
      else i :: url_positions (S i) rest
  end.

(** The path the loop writes the entry at position [i] to. *)
Definition target_path (w : World) (i : nat) : string :=
  path_join w (process_cwd w) (filename (date_now w i) (i + 1)).

(** Every entry with a URL is downloaded and written without error. *)
Definition all_transfers_succeed (w : World) (i : nat) (entries : list Image) : Prop :=
  forall k imageData u,
    nth_error entries k = Some imageData ->
    url imageData = Some u -> u <> "" ->
    exists buffer,
      fetch_arrayBuffer w (i + k) u = Fulfilled buffer /\
      fs_writeFile w (i + k) (target_path w (i + k)) buffer = Fulfilled tt.


(** Console output only. *)
Definition console_event (e : Event) : bool :=
  match e with
  | ConsoleLog _ | ConsoleError _ | ConsoleWarn _ => true
  | _ => false
  end.

(** ** Statements of the specification that the program does not satisfy

    Each is written here as the specification words it; the properties
    section refutes it on a concrete run and proves what holds instead. *)

(** Prompt precedence, where a source is "present" as soon as it was given
    on the command line. *)
Definition prompt_precedence_as_stated : Prop :=
  forall w cli t params,
    parseArgs w cli = (t, Done params) ->
    (forall a rest, args cli = a :: rest -> prompt params = Some a) /\
    (forall p, args cli = [] -> opt_prompt (opts cli) = Some p ->
               prompt params = Some p) /\
    (forall file contents,
        args cli = [] -> opt_prompt (opts cli) = None ->
        opt_promptFile (opts cli) = Some file ->
        fs_readFile w file = Fulfilled contents ->
        prompt params = Some (JS.trim contents)).

(** A missing credential always ends in the credential error. *)
Definition missing_credential_as_stated : Prop :=
  forall w cli,
    env_OPENAI_API_KEY w = None ->
    exit_code (main w cli) = 1%Z /\
    incl credential_error (trace (main w cli)) /\
    generation_requests (trace (main w cli)) = [].

(** No prompt source at all always ends in the missing-prompt error. *)
Definition missing_prompt_as_stated : Prop :=
  forall w cli,
    args cli = [] ->
    opt_prompt (opts cli) = None ->
    opt_promptFile (opts cli) = None ->
    exit_code (main w cli) = 1%Z /\
    incl missing_prompt_error (trace (main w cli)) /\
    generation_requests (trace (main w cli)) = [].

(** The only prompt source given yields the empty string. *)
Definition only_source_is_empty (w : World) (cli : CommandLine) : Prop :=
  (args cli = [""] /\ opt_prompt (opts cli) = None
   /\ opt_promptFile (opts cli) = None)
  \/ (args cli = [] /\ opt_prompt (opts cli) = Some ""
      /\ opt_promptFile (opts cli) = None)
  \/ (args cli = [] /\ opt_prompt (opts cli) = None
      /\ exists file contents,
           opt_promptFile (opts cli) = Some file /\
           fs_readFile w file = Fulfilled contents /\
           JS.trim contents = "").

Definition empty_prompt_as_stated : Prop :=
  forall w cli,
    only_source_is_empty w cli ->
    exit_code (main w cli) = 1%Z /\
    incl missing_prompt_error (trace (main w cli)) /\
    network_calls (trace (main w cli)) = [].

(** The count of every request that reaches the provider is a positive
    integer. *)
Definition positive_count_as_stated : Prop :=
  forall w cli req,
    In (Generate req) (trace (main w cli)) ->
    exists k, req_n req = JS.Int k /\ (0 < k)%Z.

(** [N] entries, [M] of them without URL, all transfers succeeding:
    [N - M] files and exit status 0. *)
Definition files_written_as_stated : Prop :=
  forall w cli req resp entries,
    In (Generate req) (trace (main w cli)) ->
    images_generate w req = inl resp ->
    data resp = Some entries ->
    all_transfers_succeed w 0 entries ->
    length (written_paths (trace (main w cli)))
    = length entries - length (filter lacks_url entries) /\
    exit_code (main w cli) = 0%Z.


(** ** More readings of a trace *)

(** The URLs handed to [fetch], in order. *)
Definition fetched_urls (t : list Event) : list string :=
  flat_map (fun e => match e with Fetch u => [u] | _ => [] end) t.

(** The calls of [writeFile], in order: path and content. *)
Definition write_calls (t : list Event) : list (string * Buffer) :=
  flat_map (fun e => match e with WriteFile p b => [(p, b)] | _ => [] end) t.

(** The lines printed with [console.error] and with [console.warn]. *)
Definition error_lines (t : list Event) : list string :=
  flat_map (fun e => match e with ConsoleError s => [s] | _ => [] end) t.

Definition warning_lines (t : list Event) : list string :=
  flat_map (fun e => match e with ConsoleWarn s => [s] | _ => [] end) t.

(** [s] begins with [p]. *)
Fixpoint starts_with (p s : string) : bool :=
  match p with
  | EmptyString => true
  | String a p' =>
      match s with
      | String b s' => (Ascii.eqb a b && starts_with p' s')%bool
      | EmptyString => false
      end
  end.

(** The "Saved to: ..." lines printed with [console.log]. *)
Definition saved_lines (t : list Event) : list string :=
  flat_map (fun e => match e with
                     | ConsoleLog s => if starts_with "Saved to: " s then [s] else []
                     | _ => []
                     end) t.

(** The usable URLs of the entries of a response, in result order. *)
Definition urls_of (entries : list Image) : list string :=
  flat_map (fun e => match url e with
                     | Some ((String _ _) as u) => [u]
                     | _ => []
                     end) entries.

(** The entries whose download is fulfilled, with their position (counted
    from [i]) and the bytes received. *)
Fixpoint downloads (w : World) (i : nat) (entries : list Image) : list (nat * Buffer) :=
  match entries with
  | [] => []
  | imageData :: rest =>
      match url imageData with
      | Some ((String _ _) as u) =>
          match fetch_arrayBuffer w i u with
          | Fulfilled buffer => (i, buffer) :: downloads w (S i) rest
          | Rejected _ => downloads w (S i) rest
          end
      | _ => downloads w (S i) rest
      end
  end.

(** The text printed after "Message: " for a rejected generation call:
    [error.response.data?.error?.message || error.message]. *)
Definition provider_message (r : ErrorResponse) (error : ApiError) : string :=
  match data_error_message r with
  | Some ((String _ _) as m) => m
  | _ => message error
  end.

(** The first and the last character of a string, if any. *)
Definition first_char (s : string) : option ascii :=
  match s with
  | String c _ => Some c
  | EmptyString => None
  end.

Definition last_char (s : string) : option ascii :=
  first_char (JS.reverse s).

Definition is_ws_opt (c : option ascii) : bool :=
  match c with
  | Some c => JS.is_whitespace c
  | None => false
  end.


(** [JS.trimStart] on the list of characters of a string. *)
Fixpoint drop_whitespace (l : list ascii) : list ascii :=
  match l with
  | c :: r => if JS.is_whitespace c then drop_whitespace r else l
  | [] => []
  end.



(** ** The earlier command line: the hand-written parser

    [src/index.js] keeps, after the first JavaScript version, the TypeScript
    version that preceded commander: its [parseArgs] walks [process.argv]
    itself, its [printHelp] prints the usage, and its [generateImages] is the
    function modelled above, line for line. *)

Module Legacy.

(** The double quote character. *)
Definition quote : string := String (ascii_of_nat 34) EmptyString.

(** The lines of the template literal of [printHelp]; it begins and ends
    with a line break. *)
Definition usage_lines : list string :=
  ["";
   "OpenAI Image CLI - Generate images using DALL-E";
   "";
   "Usage:";
   "  openai-image <prompt> [options]";
   ("  openai-image --prompt " ++ quote ++ "<prompt>" ++ quote ++ " [options]")%string;
   "";
   "Options:";
   "  --prompt <text>     Image generation prompt (required)";
   "  --size <size>       Image size (default: 1024x1024)";
   "                      Valid sizes for dall-e-3: 1024x1024, 1024x1792, 1792x1024";
   "                      Valid sizes for dall-e-2: 256x256, 512x512, 1024x1024";
   "                      Valid sizes for gpt-image: 1024x1024, 1024x1792, 1792x1024";
   "                      Valid sizes for gpt-image-mini: 1024x1024, 1024x1792, 1792x1024";
   "  --n <number>        Number of images to generate (default: 1)";
   "                      Note: dall-e-3, gpt-image, and gpt-image-mini only support n=1";
   "  --model <model>     Model to use: dall-e-3, dall-e-2, gpt-image, or gpt-image-mini (default: dall-e-3)";
   "  --help, -h          Show this help message";
   "";
   "Environment Variables:";
   "  OPENAI_API_KEY      Your OpenAI API key (required)";
   "";
   "Examples:";
   ("  openai-image " ++ quote ++ "A sunset over mountains" ++ quote)%string;
   ("  openai-image --prompt " ++ quote ++ "A cat playing piano" ++ quote ++ " --size 1024x1024 --n 1")%string;
   ("  openai-image " ++ quote ++ "Abstract art" ++ quote ++ " --model dall-e-2 --size 512x512 --n 2")%string;
   ("  openai-image " ++ quote ++ "Modern design" ++ quote ++ " --model gpt-image --size 1024x1024")%string;
   ("  openai-image " ++ quote ++ "Quick sketch" ++ quote ++ " --model gpt-image-mini")%string;
   ""].

Definition printHelp : Proc unit :=
  console_log (String.concat JS.newline usage_lines).

(** The initial [params] of [parseArgs]. *)
Definition initial_params : Params :=
  {| prompt := None; size := "1024x1024"; n := JS.Int 1; model := "dall-e-3" |}.

Definition set_prompt (params : Params) (value : option string) : Params :=
  {| prompt := value; size := size params; n := n params; model := model params |}.

Definition set_size (params : Params) (value : string) : Params :=
  {| prompt := prompt params; size := value; n := n params; model := model params |}.

Definition set_n (params : Params) (value : JS.Number) : Params :=
  {| prompt := prompt params; size := size params; n := value; model := model params |}.

Definition set_model (params : Params) (value : string) : Params :=
  {| prompt := prompt params; size := size params; n := n params; model := value |}.

(** The [for] loop of [parseArgs] over the arguments still to read.  An
    option name takes the next argument as its value ([args[++i]]) only when
    there is one ([i + 1 < args.length]); otherwise it falls through the
    chain of [else if] like any other argument. *)
Fixpoint parse_loop (params : Params) (args : list string) : Proc Params :=
  match args with
  | [] => ret params
  | arg :: rest =>
      let otherwise :=
        if (String.eqb arg "--help" || String.eqb arg "-h")%bool then
          printHelp ;;
          process_exit 0
        else if negb (JS.truthy (prompt params)) then
          parse_loop (set_prompt params (Some arg)) rest
        else parse_loop params rest in
      match rest with
      | value :: rest' =>
          if String.eqb arg "--prompt" then
            parse_loop (set_prompt params (Some value)) rest'
          else if String.eqb arg "--size" then
            parse_loop (set_size params value) rest'
          else if String.eqb arg "--n" then
            parse_loop (set_n params (JS.parseInt10 value)) rest'
          else if String.eqb arg "--model" then
            parse_loop (set_model params value) rest'
          else otherwise
      | [] => otherwise
      end
  end.

(** [parseArgs], on [process.argv.slice(2)]. *)
Definition parseArgs (argv : list string) : Proc Params :=
  parse_loop initial_params argv.

(** [const params = parseArgs(); generateImages(params);] *)
Definition main (w : World) (argv : list string) : Proc unit :=
  params <- parseArgs argv ;;
  generateImages w params.

(** The names the parser knows: the four options that take a value and the
    two spellings of help. *)
Definition is_option_name (arg : string) : bool :=
  (String.eqb arg "--prompt" || String.eqb arg "--size" || String.eqb arg "--n"
   || String.eqb arg "--model" || String.eqb arg "--help" || String.eqb arg "-h")%bool.

Definition takes_value (arg : string) : bool :=
  (String.eqb arg "--prompt" || String.eqb arg "--size" || String.eqb arg "--n"
   || String.eqb arg "--model")%bool.

(** Arguments none of which is a name the parser knows. *)
Definition plain (args : list string) : bool :=
  forallb (fun a => negb (is_option_name a)) args.

(** The prompt after a run of plain arguments: the current one if it is
    non-empty, else the first non-empty argument, else the last argument. *)
Fixpoint absorb (current : option string) (args : list string) : option string :=
  match args with
  | [] => current
  | a :: rest => absorb (if JS.truthy current then current else Some a) rest
  end.

End Legacy.


(** ** The first version: [generateImages] of the JavaScript file

    The first part of [src/index.js] is the program before TypeScript.  Its
    [generateImages] has the same two checks, progress lines and [catch] as
    the later one, and differs in three places: only dall-e-3 is limited to
    one image, the response is used without looking whether it has entries,
    and an entry is fetched without looking whether it has a URL. *)

Module FirstVersion.

(** [if (params.model === 'dall-e-3' && params.n > 1)] *)
Definition apply_model_policy (params : Params) : Proc JS.Number :=
  if (String.eqb (model params) "dall-e-3" && JS.gt (n params) (JS.Int 1))%bool
  then
    console_warn "Warning: dall-e-3 only supports n=1. Setting n to 1." ;;
    ret (JS.Int 1)
  else ret (n params).

(** [imageData.url] as the template literal and [fetch] read it: a missing
    URL is the text "undefined". *)
Definition url_text (imageData : Image) : string :=
  match url imageData with
  | Some u => u
  | None => "undefined"
  end.

(** One iteration of the loop: no test of the URL. *)
Definition download_item (w : World) (i : nat) (imageData : Image) : Proc unit :=
  let imageUrl := url_text imageData in
  console_log (JS.newline ++ "Image " ++ JS.string_of_nat (i + 1) ++ ":") ;;
  console_log ("URL: " ++ imageUrl) ;;
  emit (Fetch imageUrl) ;;
  match fetch_arrayBuffer w i imageUrl with
  | Fulfilled buffer =>
      let timestamp := date_now w i in
      let filepath := path_join w (process_cwd w) (filename timestamp (i + 1)) in
      emit (WriteFile filepath buffer) ;;
      match fs_writeFile w i filepath buffer with
      | Fulfilled _ => console_log ("Saved to: " ++ filepath)
      | Rejected errorMessage =>
          console_error ("Failed to download image " ++ JS.string_of_nat (i + 1)
                         ++ ": " ++ errorMessage)
      end
  | Rejected errorMessage =>
      console_error ("Failed to download image " ++ JS.string_of_nat (i + 1)
                     ++ ": " ++ errorMessage)
  end.

Fixpoint download_loop (w : World) (i : nat) (entries : list Image) : Proc unit :=
  match entries with
  | [] => ret tt
  | imageData :: rest => download_item w i imageData ;; download_loop w (S i) rest
  end.

(** What follows a fulfilled call.  Reading [response.data.length] of a
    response without [data] throws a TypeError, which the [catch] of the
    call reports like any other error without [response]; [typeError] is
    the message the engine gives it. *)
Definition handle_response (w : World) (typeError : string) (resp : ImagesResponse)
  : Proc unit :=
  match data resp with
  | Some entries =>
      console_log (JS.newline ++ "Successfully generated "
                   ++ JS.string_of_nat (length entries) ++ " image(s):") ;;
      download_loop w 0 entries ;;
      console_log (JS.newline ++ "Done!")
  | None =>
      report_generation_error {| response := None; message := typeError |}
  end.

Definition generateImages (w : World) (typeError : string) (params : Params)
  : Proc unit :=
  let apiKey := env_OPENAI_API_KEY w in
  (if JS.truthy apiKey then ret tt
   else
     console_error "Error: OPENAI_API_KEY environment variable is not set" ;;
     console_error "Please set your OpenAI API key: export OPENAI_API_KEY=your-key-here" ;;
     process_exit 1) ;;
  match prompt params with
  | Some ((String _ _) as thePrompt) =>
      n' <- apply_model_policy params ;;
      announce params n' thePrompt ;;
      let request := {| req_model := model params;
                        req_prompt := thePrompt;
                        req_n := n';
                        req_size := size params |} in
      emit (Generate request) ;;
      match images_generate w request with
      | inl resp => handle_response w typeError resp
      | inr error => report_generation_error error
      end
  | _ =>
      console_error "Error: Prompt is required" ;;
      console_error "Use --help for usage information" ;;
      process_exit 1
  end.

(** The count this version sends for a model and a requested count. *)
Definition effective_count (m : string) (requested : JS.Number) : JS.Number :=
  if (String.eqb m "dall-e-3" && JS.gt requested (JS.Int 1))%bool
  then JS.Int 1 else requested.

End FirstVersion.

(** * Properties *)

(** ** Worked runs *)

Example parseInt10_examples :
  JS.parseInt10 "1" = JS.Int 1 /\ JS.parseInt10 " 42px" = JS.Int 42 /\
  JS.parseInt10 "-3" = JS.Int (-3) /\ JS.parseInt10 "0x10" = JS.Int 0 /\
  JS.parseInt10 "abc" = JS.NaN /\ JS.parseInt10 "" = JS.NaN.
Proof. repeat split. Qed.

Example trim_examples :
  JS.trim ("  a cat" ++ JS.newline) = "a cat" /\ JS.trim "   " = "" /\
  JS.trim "a  b" = "a  b".
Proof. repeat split. Qed.

(** [openai-image "A sunset"] with the defaults, one URL returned: one call,
    one file, exit status 0. *)
Example run_sunset :
  main (sample_world (Some "sk-test") (Some [ {| url := Some "https://img/1" |} ]))
       {| opts := default_options; args := ["A sunset"] |}
  = ([ConsoleLog "Generating 1 image(s) with dall-e-3...";
      ConsoleLog "Prompt: A sunset";
      ConsoleLog "Size: 1024x1024";
      Generate {| req_model := "dall-e-3"; req_prompt := "A sunset";
                  req_n := JS.Int 1; req_size := "1024x1024" |};
      ConsoleLog (JS.newline ++ "Successfully generated 1 image(s):");
      ConsoleLog (JS.newline ++ "Image 1:");
      ConsoleLog "URL: https://img/1";
      Fetch "https://img/1";
      WriteFile "/work/generated_image_1700000000000_1.png" [];
      ConsoleLog "Saved to: /work/generated_image_1700000000000_1.png";
      ConsoleLog (JS.newline ++ "Done!")],
     Done tt).
Proof. reflexivity. Qed.

(** A provider that rejects the call: the diagnostic and exit status 1. *)
Example run_rejected :
  let w := {| env_OPENAI_API_KEY := Some "sk-test";
              fs_readFile := fun _ => Rejected "ENOENT";
              images_generate := fun _ =>
                inr {| response := Some {| status := 400;
                                           data_error_message := Some "Invalid size" |};
                       message := "Request failed with status code 400" |};
              fetch_arrayBuffer := fun _ _ => Rejected "fetch failed";
              date_now := fun _ => 0%N;
              process_cwd := "/work";
              path_join := fun a b => (a ++ "/" ++ b)%string;
              fs_writeFile := fun _ _ _ => Fulfilled tt |} in
  main w {| opts := default_options; args := ["A sunset"] |}
  = ([ConsoleLog "Generating 1 image(s) with dall-e-3...";
      ConsoleLog "Prompt: A sunset";
      ConsoleLog "Size: 1024x1024";
      Generate {| req_model := "dall-e-3"; req_prompt := "A sunset";
                  req_n := JS.Int 1; req_size := "1024x1024" |};
      ConsoleError (JS.newline ++ "Error generating images:");
      ConsoleError "Status: 400";
      ConsoleError "Message: Invalid size"],
     Exited 1).
Proof. reflexivity. Qed.

(** ** The process monad *)

Section ProcLaws.
Context {A B : Type}.

Lemma bind_done (t : list Event) (a : A) (k : A -> Proc B) :
  bind (t, Done a) k = (t ++ trace (k a), snd (k a)).
Proof. unfold bind, trace. destruct (k a); reflexivity. Qed.

Lemma bind_ret (a : A) (k : A -> Proc B) : bind (ret a) k = k a.
Proof. unfold bind, ret. destruct (k a). reflexivity. Qed.

Lemma bind_exited (t : list Event) (c : Z) (k : A -> Proc B) :
  bind (t, Exited c) k = (t, Exited c).
Proof. reflexivity. Qed.

End ProcLaws.

Lemma generation_requests_app (t1 t2 : list Event) :
  generation_requests (t1 ++ t2) = generation_requests t1 ++ generation_requests t2.
Proof. apply flat_map_app. Qed.

Lemma written_paths_app (t1 t2 : list Event) :
  written_paths (t1 ++ t2) = written_paths t1 ++ written_paths t2.
Proof. apply flat_map_app. Qed.

Lemma network_calls_app (t1 t2 : list Event) :
  network_calls (t1 ++ t2) = network_calls t1 ++ network_calls t2.
Proof. apply filter_app. Qed.

Lemma in_generation_requests (t : list Event) (r : GenerationRequest) :
  In (Generate r) t <-> In r (generation_requests t).
Proof.
  unfold generation_requests. rewrite in_flat_map. split.
  - intros H. exists (Generate r). split; [assumption | now left].
  - intros [e [He Hr]]. destruct e; simpl in Hr; try contradiction.
    destruct Hr as [-> | []]. assumption.
Qed.

(** ** The request resolver *)

Lemma parseArgs_cases (w : World) (cli : CommandLine) :
  parseArgs_outcome w cli (parseArgs w cli).
Proof.
  unfold parseArgs. destruct (args cli) as [| a rest].
  - destruct (JS.truthy (opt_prompt (opts cli))).
    + apply parsed_without_file.
    + destruct (opt_promptFile (opts cli)) as [[| c file] |].
      * apply parsed_without_file.
      * destruct (fs_readFile w (String c file)) as [contents | msg] eqn:Hread.
        -- now apply parsed_with_file.
        -- now apply unreadable_file.
      * apply parsed_without_file.
  - apply parsed_without_file.
Qed.

Lemma parseArgs_positional (w : World) (cli : CommandLine) (a : string)
      (rest : list string) :
  args cli = a :: rest ->
  parseArgs w cli =
    ([], Done {| prompt := Some a; size := opt_size (opts cli);
                 n := JS.parseInt10 (opt_n (opts cli));
                 model := opt_model (opts cli) |}).
Proof. intros H. unfold parseArgs. rewrite H. reflexivity. Qed.

Lemma parseArgs_flag (w : World) (cli : CommandLine) (p : string) :
  args cli = [] -> opt_prompt (opts cli) = Some p -> p <> "" ->
  parseArgs w cli =
    ([], Done {| prompt := Some p; size := opt_size (opts cli);
                 n := JS.parseInt10 (opt_n (opts cli));
                 model := opt_model (opts cli) |}).
Proof.
  intros Ha Hp Hne. unfold parseArgs. rewrite Ha, Hp.
  destruct p; [contradiction | reflexivity].
Qed.

Lemma parseArgs_file (w : World) (cli : CommandLine) (file : string) :
  args cli = [] -> JS.truthy (opt_prompt (opts cli)) = false ->
  opt_promptFile (opts cli) = Some file -> file <> "" ->
  parseArgs w cli =
    match fs_readFile w file with
    | Fulfilled contents =>
        ([ReadFile file],
         Done {| prompt := Some (JS.trim contents); size := opt_size (opts cli);
                 n := JS.parseInt10 (opt_n (opts cli));
                 model := opt_model (opts cli) |})
    | Rejected errorMessage =>
        ([ReadFile file; ConsoleError ("Error reading prompt file: " ++ errorMessage)],
         Exited 1)
    end.
Proof.
  intros Ha Hp Hf Hne. unfold parseArgs. rewrite Ha, Hp, Hf.
  destruct file as [| c file]; [contradiction |].
  destruct (fs_readFile w (String c file)); reflexivity.
Qed.

Lemma parseArgs_no_source (w : World) (cli : CommandLine) :
  args cli = [] -> JS.truthy (opt_prompt (opts cli)) = false ->
  JS.truthy (opt_promptFile (opts cli)) = false ->
  parseArgs w cli =
    ([], Done {| prompt := None; size := opt_size (opts cli);
                 n := JS.parseInt10 (opt_n (opts cli));
                 model := opt_model (opts cli) |}).
Proof.
  intros Ha Hp Hf. unfold parseArgs. rewrite Ha, Hp.
  destruct (opt_promptFile (opts cli)) as [[| c f] |];
    [reflexivity | discriminate | reflexivity].
Qed.

(** ** The checks at the head of [generateImages] *)

Lemma generateImages_no_credential (w : World) (params : Params) :
  JS.truthy (env_OPENAI_API_KEY w) = false ->
  generateImages w params = (credential_error, Exited 1).
Proof. intros H. unfold generateImages. rewrite H. reflexivity. Qed.

Lemma generateImages_no_prompt (w : World) (params : Params) :
  JS.truthy (env_OPENAI_API_KEY w) = true ->
  JS.truthy (prompt params) = false ->
  generateImages w params = (missing_prompt_error, Exited 1).
Proof.
  intros Hk Hp. unfold generateImages. rewrite Hk.
  destruct (prompt params) as [[| c s] |]; try discriminate; reflexivity.
Qed.

Lemma apply_model_policy_result (params : Params) :
  snd (apply_model_policy params)
  = Done (effective_count (model params) (n params)).
Proof.
  unfold apply_model_policy, effective_count.
  destruct (includes single_image_models (model params)
            && JS.gt (n params) (JS.Int 1))%bool; reflexivity.
Qed.

Lemma generateImages_call (w : World) (params : Params) (c : ascii) (s : string) :
  JS.truthy (env_OPENAI_API_KEY w) = true ->
  prompt params = Some (String c s) ->
  let n' := effective_count (model params) (n params) in
  let request := {| req_model := model params; req_prompt := String c s;
                    req_n := n'; req_size := size params |} in
  generateImages w params =
    (trace (apply_model_policy params)
     ++ trace (announce params n' (String c s))
     ++ Generate request :: trace (await_generate w request),
     snd (await_generate w request)).
Proof.
  intros Hk Hp n' request. unfold generateImages. rewrite Hk, Hp.
  rewrite bind_ret.
  pose proof (apply_model_policy_result params) as Hn.
  destruct (apply_model_policy params) as [tp op]. simpl in Hn. subst op.
  rewrite bind_done. fold n'. fold request.
  unfold call_generate, announce, console_log, emit, trace.
  destruct (await_generate w request) as [ta oa]. reflexivity.
Qed.

Lemma main_cases (w : World) (cli : CommandLine) :
  main_outcome w cli (main w cli).
Proof.
  unfold main.
  destruct (parseArgs_cases w cli) as [p | file contents Hread | file msg Hread].
  - (* no file was read *)
    rewrite bind_done.
    destruct (JS.truthy (env_OPENAI_API_KEY w)) eqn:Hk.
    + destruct p as [[| c s] |].
      * rewrite generateImages_no_prompt by (assumption || reflexivity).
        apply (stopped_no_prompt w cli []); [assumption | now left].
      * rewrite (generateImages_call w _ c s) by (assumption || reflexivity).
        apply (called_provider w cli [] (String c s));
          [assumption | discriminate | now left].
      * rewrite generateImages_no_prompt by (assumption || reflexivity).
        apply (stopped_no_prompt w cli []); [assumption | now left].
    + rewrite generateImages_no_credential by assumption.
      apply (stopped_no_credential w cli []); [assumption | now left].
  - (* the prompt file was read *)
    rewrite bind_done.
    destruct (JS.truthy (env_OPENAI_API_KEY w)) eqn:Hk.
    + destruct (JS.trim contents) as [| c s] eqn:Ht.
      * rewrite generateImages_no_prompt by (assumption || reflexivity).
        apply (stopped_no_prompt w cli [ReadFile file]);
          [assumption | right; now exists file, contents].
      * rewrite (generateImages_call w _ c s) by (assumption || reflexivity).
        apply (called_provider w cli [ReadFile file] (String c s));
          [assumption | discriminate | right; now exists file, contents].
    + rewrite generateImages_no_credential by assumption.
      apply (stopped_no_credential w cli [ReadFile file]);
        [assumption | right; now exists file, contents].
  - (* the prompt file could not be read *)
    rewrite bind_exited. now apply stopped_unreadable_file.
Qed.

(** With a credential and a non-empty prompt the provider is called, with
    the request resolved from the command line. *)
Lemma main_calls_provider (w : World) (cli : CommandLine) (read : list Event)
      (params : Params) (thePrompt : string) :
  JS.truthy (env_OPENAI_API_KEY w) = true ->
  parseArgs w cli = (read, Done params) ->
  prompt params = Some thePrompt -> thePrompt <> "" ->
  In (Generate (request_of cli thePrompt)) (trace (main w cli)).
Proof.
  intros Hk Hparse Hp Hne.
  assert (Hparams : params = params_of cli (Some thePrompt)).
  { pose proof (parseArgs_cases w cli) as Hc. rewrite Hparse in Hc.
    inversion Hc; subst; simpl in Hp; now rewrite Hp. }
  subst params. destruct thePrompt as [| c s]; [contradiction |].
  unfold main. rewrite Hparse, bind_done.
  rewrite (generateImages_call w (params_of cli (Some (String c s))) c s Hk Hp).
  unfold trace at 1. cbn [fst].
  apply in_or_app. right. apply in_or_app. right. apply in_or_app. right.
  left. reflexivity.
Qed.

(** ** The download loop *)

Lemma download_item_done (w : World) (i : nat) (imageData : Image) :
  snd (download_item w i imageData) = Done tt.
Proof.
  unfold download_item.
  destruct (url imageData) as [[| c u] |]; try reflexivity.
  destruct (fetch_arrayBuffer w i (String c u)) as [buffer | msg]; [| reflexivity].
  cbn. destruct (fs_writeFile w i _ buffer) as [[] | msg]; reflexivity.
Qed.

Lemma download_item_events (w : World) (i : nat) (imageData : Image) :
  forallb download_event (trace (download_item w i imageData)) = true.
Proof.
  unfold download_item.
  destruct (url imageData) as [[| c u] |]; try reflexivity.
  destruct (fetch_arrayBuffer w i (String c u)) as [buffer | msg]; [| reflexivity].
  cbn. destruct (fs_writeFile w i _ buffer) as [[] | msg]; reflexivity.
Qed.

Lemma download_loop_cons (w : World) (i : nat) (imageData : Image)
      (rest : list Image) :
  download_loop w i (imageData :: rest) =
    (trace (download_item w i imageData) ++ trace (download_loop w (S i) rest),
     snd (download_loop w (S i) rest)).
Proof.
  simpl. pose proof (download_item_done w i imageData) as Hd.
  destruct (download_item w i imageData) as [t o]. simpl in Hd. subst o.
  rewrite bind_done. reflexivity.
Qed.

Lemma download_loop_done (w : World) (entries : list Image) :
  forall i, snd (download_loop w i entries) = Done tt.
Proof.
  induction entries as [| imageData rest IH]; intros i.
  - reflexivity.
  - rewrite download_loop_cons. apply IH.
Qed.

Lemma download_loop_events (w : World) (entries : list Image) :
  forall i, forallb download_event (trace (download_loop w i entries)) = true.
Proof.
  induction entries as [| imageData rest IH]; intros i.
  - reflexivity.
  - rewrite download_loop_cons. unfold trace at 1. cbn [fst].
    rewrite forallb_app, download_item_events, IH. reflexivity.
Qed.

(** Every entry gets its iteration, whatever happened to the others. *)
Lemma download_loop_visits (w : World) (entries : list Image) :
  forall i k imageData,
    nth_error entries k = Some imageData ->
    exists before after,
      trace (download_loop w i entries)
      = before ++ trace (download_item w (i + k) imageData) ++ after.
Proof.
  induction entries as [| e rest IH]; intros i k imageData Hk.
  - destruct k; discriminate.
  - rewrite download_loop_cons. unfold trace at 1. cbn [fst].
    destruct k as [| k].
    + injection Hk as ->. rewrite Nat.add_0_r.
      exists [], (trace (download_loop w (S i) rest)). reflexivity.
    + destruct (IH (S i) k imageData Hk) as [before [after Heq]].
      exists (trace (download_item w i e) ++ before), after.
      replace (i + S k) with (S i + k) by lia.
      rewrite Heq, <- app_assoc. reflexivity.
Qed.

Lemma download_events_no_generate (t : list Event) :
  forallb download_event t = true -> generation_requests t = [].
Proof.
  induction t as [| e t IH]; simpl; [reflexivity |].
  intros H. apply andb_prop in H as [He Ht].
  destruct e; try discriminate; simpl; auto.
Qed.

Lemma local_events_quiet (t : list Event) :
  forallb local_event t = true ->
  generation_requests t = [] /\ network_calls t = [] /\ written_paths t = [].
Proof.
  induction t as [| e t IH]; simpl; [auto |].
  intros H. apply andb_prop in H as [He Ht].
  destruct (IH Ht) as [Hg [Hn Hw]].
  destruct e; try discriminate; simpl; auto.
Qed.

Lemma read_only_local (w : World) (t : list Event) :
  read_only w t -> forallb local_event t = true.
Proof. intros [-> | [file [contents [-> _]]]]; reflexivity. Qed.

Lemma apply_model_policy_local (params : Params) :
  forallb local_event (trace (apply_model_policy params)) = true.
Proof.
  unfold apply_model_policy.
  destruct (includes single_image_models (model params)
            && JS.gt (n params) (JS.Int 1))%bool; reflexivity.
Qed.

Lemma announce_local (params : Params) (n' : JS.Number) (s : string) :
  forallb local_event (trace (announce params n' s)) = true.
Proof. reflexivity. Qed.

(** ** After the generation call *)

Lemma handle_response_entries (w : World) (resp : ImagesResponse)
      (e : Image) (rest : list Image) :
  data resp = Some (e :: rest) ->
  handle_response w resp =
    (ConsoleLog (JS.newline ++ "Successfully generated "
                 ++ JS.string_of_nat (length (e :: rest)) ++ " image(s):")
     :: trace (download_loop w 0 (e :: rest))
     ++ [ConsoleLog (JS.newline ++ "Done!")],
     Done tt).
Proof.
  intros Hd. unfold handle_response. rewrite Hd.
  pose proof (download_loop_done w (e :: rest) 0) as Hl.
  destruct (download_loop w 0 (e :: rest)) as [t o]. simpl in Hl. subst o.
  reflexivity.
Qed.

Lemma handle_response_empty (w : World) (resp : ImagesResponse) :
  data resp = None \/ data resp = Some [] ->
  handle_response w resp =
    ([ConsoleLog (JS.newline ++ "Successfully generated 0 image(s):");
      ConsoleError "No images were generated"],
     Exited 1).
Proof. intros [Hd | Hd]; unfold handle_response; rewrite Hd; reflexivity. Qed.

Lemma await_generate_events (w : World) (request : GenerationRequest) :
  forallb download_event (trace (await_generate w request)) = true.
Proof.
  unfold await_generate.
  destruct (images_generate w request) as [resp | error].
  - destruct (data resp) as [[| e rest] |] eqn:Hd.
    + rewrite handle_response_empty by auto. reflexivity.
    + rewrite (handle_response_entries w resp e rest Hd).
      unfold trace at 1. cbv [fst].
      match goal with
      | |- forallb _ (?a :: ?t ++ ?b) = true =>
          change (a :: t ++ b) with ([a] ++ t ++ b)
      end.
      rewrite !forallb_app, download_loop_events. reflexivity.
    + rewrite handle_response_empty by auto. reflexivity.
  - unfold report_generation_error.
    destruct (response error) as [r |]; reflexivity.
Qed.

(** ** Runs that reach the provider *)

(** A run that makes a generation call made exactly this one, after local
    events only; the request is the one resolved from the command line. *)
Lemma main_reaches_call (w : World) (cli : CommandLine) (req : GenerationRequest) :
  In (Generate req) (trace (main w cli)) ->
  exists read,
    read_only w read /\
    JS.truthy (env_OPENAI_API_KEY w) = true /\
    req_prompt req <> "" /\
    req = request_of cli (req_prompt req) /\
    main w cli =
      (read
       ++ trace (apply_model_policy (params_of cli (Some (req_prompt req))))
       ++ trace (announce (params_of cli (Some (req_prompt req)))
                          (req_n req) (req_prompt req))
       ++ Generate req :: trace (await_generate w req),
       snd (await_generate w req)).
Proof.
  intros Hin. apply in_generation_requests in Hin.
  destruct (main_cases w cli) as [file msg Hread | read Hk Hr | read Hk Hr
                                 | read thePrompt Hk Hne Hr].
  - contradiction.
  - exfalso. unfold trace in Hin. cbn [fst] in Hin.
    rewrite generation_requests_app in Hin.
    destruct (local_events_quiet _ (read_only_local w read Hr)) as [Hg _].
    rewrite Hg in Hin. contradiction.
  - exfalso. unfold trace in Hin. cbn [fst] in Hin.
    rewrite generation_requests_app in Hin.
    destruct (local_events_quiet _ (read_only_local w read Hr)) as [Hg _].
    rewrite Hg in Hin. contradiction.
  - unfold trace at 1 in Hin. cbn [fst] in Hin.
    rewrite !generation_requests_app in Hin.
    destruct (local_events_quiet _ (read_only_local w read Hr)) as [Hg1 _].
    destruct (local_events_quiet _ (apply_model_policy_local
                (params_of cli (Some thePrompt)))) as [Hg2 _].
    destruct (local_events_quiet _ (announce_local
                (params_of cli (Some thePrompt))
                (req_n (request_of cli thePrompt)) thePrompt)) as [Hg3 _].
    rewrite Hg1, Hg2, Hg3 in Hin. simpl in Hin.
    rewrite (download_events_no_generate _
               (await_generate_events w (request_of cli thePrompt))) in Hin.
    destruct Hin as [<- | []].
    exists read. repeat split; try assumption. 
Qed.

Lemma console_events_no_read (t : list Event) (file : string) :
  forallb console_event t = true -> ~ In (ReadFile file) t.
Proof.
  intros H Hin. rewrite forallb_forall in H. specialize (H _ Hin). discriminate.
Qed.

Lemma download_events_no_read (t : list Event) (file : string) :
  forallb download_event t = true -> ~ In (ReadFile file) t.
Proof.
  intros H Hin. rewrite forallb_forall in H. specialize (H _ Hin). discriminate.
Qed.

Lemma apply_model_policy_console (params : Params) :
  forallb console_event (trace (apply_model_policy params)) = true.
Proof.
  unfold apply_model_policy.
  destruct (includes single_image_models (model params)
            && JS.gt (n params) (JS.Int 1))%bool; reflexivity.
Qed.

Lemma announce_console (params : Params) (n' : JS.Number) (s : string) :
  forallb console_event (trace (announce params n' s)) = true.
Proof. reflexivity. Qed.

(** * The specified properties *)

(** ** Prompt resolution *)

(** C1, as stated, does not hold: with [--prompt ""] and
    [--prompt-file prompt.txt] a [--prompt] value is present, yet the prompt
    is the trimmed contents of the file, not that value. *)
Lemma prompt_precedence_counterexample : ~ prompt_precedence_as_stated.
Proof.
  intros H.
  pose (cli := {| opts := {| opt_prompt := Some "";
                             opt_promptFile := Some "prompt.txt";
                             opt_size := "1024x1024"; opt_n := "1";
                             opt_model := "dall-e-3" |};
                  args := [] |}).
  destruct (H (sample_world None None) cli [ReadFile "prompt.txt"]
              (params_of cli (Some "a cat")) eq_refl) as [_ [Hflag _]].
  specialize (Hflag "" eq_refl eq_refl). discriminate Hflag.
Qed.

(** C1 (amended): the prompt is resolved with fixed precedence.  A positional
    argument, when there is one, is used verbatim (even when empty);
    otherwise a non-empty [--prompt] value is used; otherwise (no [--prompt]
    value, or an empty one) the file named by a non-empty [--prompt-file] is
    read and its trimmed contents are used.  In each case the other
    parameters are those of the command line. *)
Theorem prompt_precedence (w : World) (cli : CommandLine) :
  (forall a rest,
      args cli = a :: rest ->
      parseArgs w cli = ([], Done (params_of cli (Some a)))) /\
  (forall p,
      args cli = [] -> opt_prompt (opts cli) = Some p -> p <> "" ->
      parseArgs w cli = ([], Done (params_of cli (Some p)))) /\
  (forall file contents,
      args cli = [] -> JS.truthy (opt_prompt (opts cli)) = false ->
      opt_promptFile (opts cli) = Some file -> file <> "" ->
      fs_readFile w file = Fulfilled contents ->
      parseArgs w cli
      = ([ReadFile file], Done (params_of cli (Some (JS.trim contents))))).
Proof.
  split; [| split].
  - intros a rest Ha. exact (parseArgs_positional w cli a rest Ha).
  - intros p Ha Hp Hne. exact (parseArgs_flag w cli p Ha Hp Hne).
  - intros file contents Ha Hp Hf Hne Hread.
    rewrite (parseArgs_file w cli file Ha Hp Hf Hne), Hread. reflexivity.
Qed.

(** The three sources on the examples of the help text. *)
Lemma prompt_precedence_witness :
  let w := sample_world None None in
  let positional := {| opts := {| opt_prompt := Some "A cat playing piano";
                                  opt_promptFile := Some "prompt.txt";
                                  opt_size := "512x512"; opt_n := "2";
                                  opt_model := "dall-e-2" |};
                       args := ["A sunset over mountains"] |} in
  let flag := {| opts := opts positional; args := [] |} in
  let file := {| opts := {| opt_prompt := None;
                            opt_promptFile := Some "prompt.txt";
                            opt_size := "512x512"; opt_n := "2";
                            opt_model := "dall-e-2" |};
                 args := [] |} in
  prompt (params_of positional (Some "A sunset over mountains"))
    = Some "A sunset over mountains" /\
  parseArgs w positional
    = ([], Done (params_of positional (Some "A sunset over mountains"))) /\
  parseArgs w flag = ([], Done (params_of flag (Some "A cat playing piano"))) /\
  parseArgs w file = ([ReadFile "prompt.txt"], Done (params_of file (Some "a cat"))).
Proof.
  intros w positional flag file.
  split; [reflexivity |]. split; [| split].
  - apply (proj1 (prompt_precedence w positional)
             "A sunset over mountains" []). reflexivity.
  - apply (proj1 (proj2 (prompt_precedence w flag)) "A cat playing piano");
      [reflexivity | reflexivity | discriminate].
  - apply (proj2 (proj2 (prompt_precedence w file))
             "prompt.txt" ("  a cat" ++ JS.newline)%string);
      [reflexivity | reflexivity | reflexivity | discriminate | reflexivity].
Defined.

(** C7: when the run reads the prompt file and the read fails, the process
    exits with status 1, the diagnostic carries the message of the I/O error,
    and nothing has gone out to the network: the whole run is the read and
    the diagnostic. *)
Theorem unreadable_prompt_file_is_fatal
        (w : World) (cli : CommandLine) (file errorMessage : string) :
  In (ReadFile file) (trace (main w cli)) ->
  fs_readFile w file = Rejected errorMessage ->
  exit_code (main w cli) = 1%Z /\
  In (ConsoleError ("Error reading prompt file: " ++ errorMessage))
     (trace (main w cli)) /\
  network_calls (trace (main w cli)) = [] /\
  main w cli =
    ([ReadFile file;
      ConsoleError ("Error reading prompt file: " ++ errorMessage)],
     Exited 1).
Proof.
  intros Hin Hrej.
  assert (Hread : forall read, read_only w read -> ~ In (ReadFile file) read).
  { intros read [-> | [f [contents [-> Hok]]]] H.
    - contradiction.
    - destruct H as [H | []]. injection H as ->. congruence. }
  destruct (main_cases w cli) as [f msg Hf | read Hk Hr | read Hk Hr
                                 | read thePrompt Hk Hne Hr].
  - destruct Hin as [H | [H | []]]; [| discriminate H].
    injection H as ->. rewrite Hrej in Hf. injection Hf as ->.
    repeat split. right. now left.
  - exfalso. unfold trace in Hin. cbn [fst] in Hin.
    apply in_app_or in Hin as [H | H]; [now apply (Hread read) |].
    destruct H as [H | [H | []]]; discriminate H.
  - exfalso. unfold trace in Hin. cbn [fst] in Hin.
    apply in_app_or in Hin as [H | H]; [now apply (Hread read) |].
    destruct H as [H | [H | []]]; discriminate H.
  - exfalso. unfold trace at 1 in Hin. cbn [fst] in Hin.
    apply in_app_or in Hin as [H | H]; [now apply (Hread read) |].
    apply in_app_or in H as [H | H].
    { revert H. apply console_events_no_read, apply_model_policy_console. }
    apply in_app_or in H as [H | H].
    { revert H. apply console_events_no_read, announce_console. }
    destruct H as [H | H]; [discriminate H |].
    revert H. apply download_events_no_read, await_generate_events.
Qed.

(** [--prompt-file missing.txt], with a credential and a provider that would
    answer. *)
Lemma unreadable_prompt_file_is_fatal_witness :
  let w := sample_world (Some "sk-test") (Some [ {| url := Some "https://img/1" |} ]) in
  let cli := {| opts := {| opt_prompt := None;
                           opt_promptFile := Some "missing.txt";
                           opt_size := "1024x1024"; opt_n := "1";
                           opt_model := "dall-e-3" |};
                args := [] |} in
  exit_code (main w cli) = 1%Z /\
  In (ConsoleError
        "Error reading prompt file: ENOENT: no such file or directory, open 'missing.txt'")
     (trace (main w cli)) /\
  network_calls (trace (main w cli)) = [].
Proof.
  intros w cli.
  destruct (unreadable_prompt_file_is_fatal w cli "missing.txt"
              "ENOENT: no such file or directory, open 'missing.txt'")
    as [Hexit [Hdiag [Hnet _]]].
  - vm_compute. left. reflexivity.
  - reflexivity.
  - auto.
Defined.

(** ** The credential and prompt checks *)

(** C5, as stated, does not hold: without a credential and with an
    unreadable [--prompt-file], the process exits after printing the read
    error alone; the credential error and its remediation line never
    appear. *)
Lemma missing_credential_counterexample : ~ missing_credential_as_stated.
Proof.
  intros H.
  pose (cli := {| opts := {| opt_prompt := None;
                             opt_promptFile := Some "missing.txt";
                             opt_size := "1024x1024"; opt_n := "1";
                             opt_model := "dall-e-3" |};
                  args := [] |}).
  destruct (H (sample_world None None) cli eq_refl) as [_ [Hincl _]].
  specialize (Hincl _ (or_introl eq_refl)).
  vm_compute in Hincl. destruct Hincl as [Hc | [Hc | []]]; discriminate Hc.
Qed.

(** C5 (amended): when the credential is not set (absent, or empty), the
    process exits with status 1 and makes no network call, hence no
    generation call.  The run ends with the credential error and its
    remediation line, unless reading the prompt file failed first: then it
    ends with the read error alone. *)
Theorem missing_credential_is_fatal (w : World) (cli : CommandLine) :
  JS.truthy (env_OPENAI_API_KEY w) = false ->
  exit_code (main w cli) = 1%Z /\
  network_calls (trace (main w cli)) = [] /\
  generation_requests (trace (main w cli)) = [] /\
  ((exists read,
       read_only w read /\
       main w cli = (read ++ credential_error, Exited 1))
   \/ (exists file errorMessage,
         fs_readFile w file = Rejected errorMessage /\
         main w cli =
           ([ReadFile file;
             ConsoleError ("Error reading prompt file: " ++ errorMessage)],
            Exited 1))).
Proof.
  intros Hk.
  destruct (main_cases w cli) as [f msg Hf | read _ Hr | read Hk' Hr
                                 | read thePrompt Hk' Hne Hr];
    try congruence.
  - repeat split. right. now exists f, msg.
  - destruct (local_events_quiet _ (read_only_local w read Hr)) as [Hg [Hn _]].
    unfold trace. cbn [fst]. rewrite network_calls_app, generation_requests_app.
    rewrite Hg, Hn. repeat split. left. now exists read.
Qed.

(** A prompt, a provider that would answer, and no credential. *)
Lemma missing_credential_is_fatal_witness :
  let w := sample_world None (Some [ {| url := Some "https://img/1" |} ]) in
  let cli := {| opts := default_options; args := ["A sunset over mountains"] |} in
  exit_code (main w cli) = 1%Z /\
  network_calls (trace (main w cli)) = [] /\
  main w cli = (credential_error, Exited 1).
Proof.
  intros w cli.
  destruct (missing_credential_is_fatal w cli eq_refl) as [Hexit [Hnet _]].
  split; [exact Hexit |]. split; [exact Hnet | reflexivity].
Defined.

(** C6, as stated, does not hold: with no prompt source and no credential,
    the process exits on the credential check; the missing-prompt error is
    never printed. *)
Lemma missing_prompt_counterexample : ~ missing_prompt_as_stated.
Proof.
  intros H.
  destruct (H (sample_world None None)
              {| opts := default_options; args := [] |}
              eq_refl eq_refl eq_refl) as [_ [Hincl _]].
  specialize (Hincl _ (or_introl eq_refl)).
  vm_compute in Hincl. destruct Hincl as [Hc | [Hc | []]]; discriminate Hc.
Qed.

(** C6 (amended): when no positional argument, no [--prompt] and no
    [--prompt-file] is given, the process exits with status 1 and makes no
    network call.  What it prints is the missing-prompt error when the
    credential is set, and the credential error otherwise. *)
Theorem missing_prompt_is_fatal (w : World) (cli : CommandLine) :
  args cli = [] ->
  opt_prompt (opts cli) = None ->
  opt_promptFile (opts cli) = None ->
  exit_code (main w cli) = 1%Z /\
  network_calls (trace (main w cli)) = [] /\
  main w cli =
    (if JS.truthy (env_OPENAI_API_KEY w)
     then missing_prompt_error else credential_error,
     Exited 1).
Proof.
  intros Ha Hp Hf. unfold main.
  rewrite (parseArgs_no_source w cli Ha) by (rewrite ?Hp, ?Hf; reflexivity).
  rewrite bind_done.
  destruct (JS.truthy (env_OPENAI_API_KEY w)) eqn:Hk.
  - rewrite generateImages_no_prompt by (assumption || reflexivity).
    repeat split.
  - rewrite generateImages_no_credential by assumption. repeat split.
Qed.

(** No prompt source, with the credential set. *)
Lemma missing_prompt_is_fatal_witness :
  let w := sample_world (Some "sk-test") (Some [ {| url := Some "https://img/1" |} ]) in
  let cli := {| opts := default_options; args := [] |} in
  exit_code (main w cli) = 1%Z /\
  network_calls (trace (main w cli)) = [] /\
  main w cli = (missing_prompt_error, Exited 1).
Proof.
  intros w cli.
  exact (missing_prompt_is_fatal w cli eq_refl eq_refl eq_refl).
Defined.

Lemma main_falsy_prompt (w : World) (cli : CommandLine) (read : list Event)
      (params : Params) :
  parseArgs w cli = (read, Done params) ->
  JS.truthy (prompt params) = false ->
  main w cli =
    (read ++ (if JS.truthy (env_OPENAI_API_KEY w)
              then missing_prompt_error else credential_error),
     Exited 1).
Proof.
  intros Hparse Hp. unfold main. rewrite Hparse, bind_done.
  destruct (JS.truthy (env_OPENAI_API_KEY w)) eqn:Hk.
  - now rewrite generateImages_no_prompt.
  - now rewrite generateImages_no_credential.
Qed.

(** C10, as stated, does not hold: with an empty positional argument and no
    credential, the process exits on the credential check; the
    missing-prompt error is never printed. *)
Lemma empty_prompt_counterexample : ~ empty_prompt_as_stated.
Proof.
  intros H.
  assert (Hempty : only_source_is_empty (sample_world None None)
                     {| opts := default_options; args := [""] |}).
  { left. repeat split. }
  destruct (H _ _ Hempty) as [_ [Hincl _]].
  specialize (Hincl _ (or_introl eq_refl)).
  vm_compute in Hincl. destruct Hincl as [Hc | [Hc | []]]; discriminate Hc.
Qed.

(** C10 (amended): when the only prompt source given yields the empty string
    (an empty positional argument, an empty [--prompt] value, or a
    [--prompt-file] whose contents trim to nothing), the prompt counts as
    missing: the process exits with status 1 and makes no network call.
    After the read of the prompt file, if any, it prints the missing-prompt
    error when the credential is set, and the credential error otherwise. *)
Theorem empty_prompt_is_missing (w : World) (cli : CommandLine) :
  only_source_is_empty w cli ->
  exit_code (main w cli) = 1%Z /\
  network_calls (trace (main w cli)) = [] /\
  exists read,
    read_only w read /\
    main w cli =
      (read ++ (if JS.truthy (env_OPENAI_API_KEY w)
                then missing_prompt_error else credential_error),
       Exited 1).
Proof.
  intros Hempty.
  assert (Hrun : exists read params,
             read_only w read /\ parseArgs w cli = (read, Done params) /\
             JS.truthy (prompt params) = false).
  { destruct Hempty as [[Ha [Hp Hf]] | [[Ha [Hp Hf]] | [Ha [Hp Hfile]]]].
    - exists [], (params_of cli (Some "")). split; [now left |].
      split; [exact (parseArgs_positional w cli "" [] Ha) | reflexivity].
    - exists [], (params_of cli None). split; [now left |].
      split; [| reflexivity].
      apply (parseArgs_no_source w cli Ha); rewrite ?Hp, ?Hf; reflexivity.
    - destruct Hfile as [file [contents [Hf [Hread Htrim]]]].
      destruct file as [| c file].
      + exists [], (params_of cli None). split; [now left |].
        split; [| reflexivity].
        apply (parseArgs_no_source w cli Ha); rewrite ?Hp, ?Hf; reflexivity.
      + exists [ReadFile (String c file)], (params_of cli (Some "")).
        split; [right; now exists (String c file), contents |].
        split; [| reflexivity].
        rewrite (parseArgs_file w cli (String c file) Ha);
          [| rewrite Hp; reflexivity | assumption | discriminate].
        rewrite Hread, Htrim. reflexivity. }
  destruct Hrun as [read [params [Hr [Hparse Hp]]]].
  rewrite (main_falsy_prompt w cli read params Hparse Hp).
  destruct (local_events_quiet _ (read_only_local w read Hr)) as [_ [Hn _]].
  split; [reflexivity |]. split.
  - unfold trace. cbn [fst]. rewrite network_calls_app, Hn.
    destruct (JS.truthy (env_OPENAI_API_KEY w)); reflexivity.
  - now exists read.
Qed.

(** A prompt file that holds white space only, with the credential set. *)
Lemma empty_prompt_is_missing_witness :
  let w := sample_world (Some "sk-test") (Some [ {| url := Some "https://img/1" |} ]) in
  let cli := {| opts := {| opt_prompt := None;
                           opt_promptFile := Some "blank.txt";
                           opt_size := "1024x1024"; opt_n := "1";
                           opt_model := "dall-e-3" |};
                args := [] |} in
  only_source_is_empty w cli /\
  exit_code (main w cli) = 1%Z /\
  network_calls (trace (main w cli)) = [] /\
  main w cli = (ReadFile "blank.txt" :: missing_prompt_error, Exited 1).
Proof.
  intros w cli.
  assert (Hempty : only_source_is_empty w cli).
  { right. right. repeat split.
    exists "blank.txt", (" " ++ JS.newline)%string. repeat split. }
  destruct (empty_prompt_is_missing w cli Hempty) as [Hexit [Hnet _]].
  split; [exact Hempty |]. split; [exact Hexit |].
  split; [exact Hnet | reflexivity].
Defined.

(** ** The single-image policy and the count *)

Lemma includes_spec (l : list string) (s : string) :
  includes l s = true <-> In s l.
Proof.
  unfold includes. rewrite existsb_exists. split.
  - intros [x [Hx Heq]]. apply String.eqb_eq in Heq. now subst.
  - intros H. exists s. split; [assumption | apply String.eqb_refl].
Qed.

Lemma gt_one_spec (x : JS.Number) :
  JS.gt x (JS.Int 1) = true <-> exists k, x = JS.Int k /\ (1 < k)%Z.
Proof.
  destruct x as [| z]; simpl.
  - split; [discriminate | intros [k [H _]]; discriminate H].
  - rewrite Z.ltb_lt. split.
    + intros H. now exists z.
    + intros [k [H Hk]]. injection H as ->. assumption.
Qed.

(** The requests of a run that reaches the provider: exactly one. *)
Lemma main_single_call (w : World) (cli : CommandLine) (req : GenerationRequest) :
  In (Generate req) (trace (main w cli)) ->
  generation_requests (trace (main w cli)) = [req].
Proof.
  intros Hin.
  destruct (main_reaches_call w cli req Hin) as [read [Hr [_ [_ [_ Hmain]]]]].
  rewrite Hmain. unfold trace at 1. cbn [fst].
  rewrite !generation_requests_app.
  destruct (local_events_quiet _ (read_only_local w read Hr)) as [-> _].
  destruct (local_events_quiet _ (apply_model_policy_local
              (params_of cli (Some (req_prompt req))))) as [-> _].
  destruct (local_events_quiet _ (announce_local
              (params_of cli (Some (req_prompt req)))
              (req_n req) (req_prompt req))) as [-> _].
  simpl. now rewrite (download_events_no_generate _ (await_generate_events w req)).
Qed.

(** C2: in every run that reaches the provider, the request carries the
    model of the command line and is the only generation call made.  When
    that model is one of dall-e-3, gpt-image and gpt-image-mini and the
    requested count exceeds 1, the count sent is exactly 1 and the warning
    has been printed; for any other model a positive requested count is sent
    unchanged. *)
Theorem single_image_policy (w : World) (cli : CommandLine) (req : GenerationRequest) :
  In (Generate req) (trace (main w cli)) ->
  let m := opt_model (opts cli) in
  let requested := JS.parseInt10 (opt_n (opts cli)) in
  req_model req = m /\
  generation_requests (trace (main w cli)) = [req] /\
  (In m ["dall-e-3"; "gpt-image"; "gpt-image-mini"] ->
   forall k, requested = JS.Int k -> (1 < k)%Z ->
   req_n req = JS.Int 1 /\
   In (ConsoleWarn ("Warning: " ++ m ++ " only supports n=1. Setting n to 1."))
      (trace (main w cli))) /\
  (~ In m ["dall-e-3"; "gpt-image"; "gpt-image-mini"] ->
   forall k, requested = JS.Int k -> (0 < k)%Z -> req_n req = JS.Int k).
Proof.
  intros Hin m requested.
  pose proof (main_single_call w cli req Hin) as Hone.
  destruct (main_reaches_call w cli req Hin) as [read [Hr [Hk [Hne [Hreq Hmain]]]]].
  split; [rewrite Hreq; reflexivity |]. split; [exact Hone |]. split.
  - intros Hm k Hreqd Hlt. apply (includes_spec single_image_models) in Hm.
    assert (Hgt : JS.gt requested (JS.Int 1) = true).
    { apply gt_one_spec. now exists k. }
    split.
    + rewrite Hreq. unfold request_of, effective_count. cbn [req_n].
      fold m requested. rewrite Hm, Hgt. reflexivity.
    + rewrite Hmain. unfold trace at 1. cbn [fst].
      apply in_or_app. right. apply in_or_app. left.
      unfold apply_model_policy, params_of. cbn [model n].
      fold m requested. rewrite Hm, Hgt. left. reflexivity.
  - intros Hm k Hreqd Hpos.
    assert (Hf : includes single_image_models m = false).
    { destruct (includes single_image_models m) eqn:E; [| reflexivity].
      exfalso. apply Hm. now apply (includes_spec single_image_models). }
    rewrite Hreq. unfold request_of, effective_count. cbn [req_n].
    fold m requested. rewrite Hf. exact Hreqd.
Qed.

(** [--n 3] with gpt-image is clamped, with dall-e-2 it is not. *)
Lemma single_image_policy_witness :
  let w := sample_world (Some "sk-test") (Some [ {| url := Some "https://img/1" |} ]) in
  let clamped := {| opts := {| opt_prompt := None; opt_promptFile := None;
                               opt_size := "1024x1024"; opt_n := "3";
                               opt_model := "gpt-image" |};
                    args := ["Modern design"] |} in
  let multi := {| opts := {| opt_prompt := None; opt_promptFile := None;
                             opt_size := "512x512"; opt_n := "3";
                             opt_model := "dall-e-2" |};
                  args := ["A cute robot"] |} in
  (forall req, In (Generate req) (trace (main w clamped)) ->
               req_n req = JS.Int 1 /\
               In (ConsoleWarn "Warning: gpt-image only supports n=1. Setting n to 1.")
                  (trace (main w clamped))) /\
  (forall req, In (Generate req) (trace (main w multi)) ->
               req_n req = JS.Int 3) /\
  In (Generate {| req_model := "gpt-image"; req_prompt := "Modern design";
                  req_n := JS.Int 1; req_size := "1024x1024" |})
     (trace (main w clamped)) /\
  In (Generate {| req_model := "dall-e-2"; req_prompt := "A cute robot";
                  req_n := JS.Int 3; req_size := "512x512" |})
     (trace (main w multi)).
Proof.
  intros w clamped multi. split; [| split; [| split]].
  - intros req Hin.
    destruct (single_image_policy w clamped req Hin) as [_ [_ [Hclamp _]]].
    apply (Hclamp ltac:(simpl; tauto) 3%Z); reflexivity.
  - intros req Hin.
    destruct (single_image_policy w multi req Hin) as [_ [_ [_ Hpass]]].
    apply (Hpass ltac:(simpl; intuition discriminate) 3%Z);
      [reflexivity | reflexivity].
  - vm_compute. tauto.
  - vm_compute. tauto.
Defined.

(** C9, as stated, does not hold: [--n 0] with dall-e-2 reaches the provider
    with a count of 0. *)
Lemma positive_count_counterexample : ~ positive_count_as_stated.
Proof.
  intros H.
  pose (cli := {| opts := {| opt_prompt := None; opt_promptFile := None;
                             opt_size := "512x512"; opt_n := "0";
                             opt_model := "dall-e-2" |};
                  args := ["A cute robot"] |}).
  pose (req := {| req_model := "dall-e-2"; req_prompt := "A cute robot";
                  req_n := JS.Int 0; req_size := "512x512" |}).
  assert (Hin : In (Generate req)
                   (trace (main (sample_world (Some "sk-test") None) cli))).
  { vm_compute. tauto. }
  destruct (H _ _ _ Hin) as [k [Hk Hpos]].
  injection Hk as <-. discriminate Hpos.
Qed.

(** C9 (amended): in every run that reaches the provider, the count sent is
    the number [parseInt] reads from the [--n] value, replaced by 1 when the
    model is single-image-only and that number exceeds 1.  It is a positive
    integer whenever the number read from [--n] is one. *)
Theorem request_count (w : World) (cli : CommandLine) (req : GenerationRequest) :
  In (Generate req) (trace (main w cli)) ->
  req_n req = effective_count (opt_model (opts cli))
                              (JS.parseInt10 (opt_n (opts cli))) /\
  (forall k, JS.parseInt10 (opt_n (opts cli)) = JS.Int k -> (0 < k)%Z ->
             exists k', req_n req = JS.Int k' /\ (0 < k')%Z).
Proof.
  intros Hin.
  destruct (main_reaches_call w cli req Hin) as [_ [_ [_ [_ [Hreq _]]]]].
  assert (Hn : req_n req = effective_count (opt_model (opts cli))
                             (JS.parseInt10 (opt_n (opts cli)))).
  { rewrite Hreq. reflexivity. }
  split; [exact Hn |].
  intros k Hk Hpos. rewrite Hn, Hk. unfold effective_count.
  destruct (includes single_image_models (opt_model (opts cli))
            && JS.gt (JS.Int k) (JS.Int 1))%bool.
  - exists 1%Z. split; [reflexivity | lia].
  - exists k. split; [reflexivity | assumption].
Qed.

(** [parseInt] reads 2 from " 2 images". *)
Lemma request_count_witness :
  let w := sample_world (Some "sk-test") (Some [ {| url := Some "https://img/1" |} ]) in
  let cli := {| opts := {| opt_prompt := None; opt_promptFile := None;
                           opt_size := "512x512"; opt_n := " 2 images";
                           opt_model := "dall-e-2" |};
                args := ["A cute robot"] |} in
  let req := {| req_model := "dall-e-2"; req_prompt := "A cute robot";
                req_n := JS.Int 2; req_size := "512x512" |} in
  In (Generate req) (trace (main w cli)) /\
  exists k', req_n req = JS.Int k' /\ (0 < k')%Z.
Proof.
  intros w cli req.
  assert (Hin : In (Generate req) (trace (main w cli))).
  { vm_compute. tauto. }
  split; [exact Hin |].
  apply (proj2 (request_count w cli req Hin) 2%Z); reflexivity.
Defined.

(** ** The fetch-and-persist loop *)

Lemma prefix_writes_nothing (w : World) (cli : CommandLine) (read : list Event)
      (thePrompt : string) (n' : JS.Number) :
  read_only w read ->
  written_paths
    (read ++ trace (apply_model_policy (params_of cli (Some thePrompt)))
          ++ trace (announce (params_of cli (Some thePrompt)) n' thePrompt))
  = [].
Proof.
  intros Hr. rewrite !written_paths_app.
  destruct (local_events_quiet _ (read_only_local w read Hr)) as [_ [_ ->]].
  destruct (local_events_quiet _ (apply_model_policy_local
              (params_of cli (Some thePrompt)))) as [_ [_ ->]].
  destruct (local_events_quiet _ (announce_local
              (params_of cli (Some thePrompt)) n' thePrompt)) as [_ [_ ->]].
  reflexivity.
Qed.

(** The trace of a run that reaches the provider, with the events before
    the call gathered in one list that writes nothing. *)
Lemma main_after_call (w : World) (cli : CommandLine) (req : GenerationRequest) :
  In (Generate req) (trace (main w cli)) ->
  exists before,
    written_paths before = [] /\
    main w cli = (before ++ Generate req :: trace (await_generate w req),
                  snd (await_generate w req)).
Proof.
  intros Hin.
  destruct (main_reaches_call w cli req Hin) as [read [Hr [_ [_ [_ Hmain]]]]].
  exists (read
          ++ trace (apply_model_policy (params_of cli (Some (req_prompt req))))
          ++ trace (announce (params_of cli (Some (req_prompt req)))
                             (req_n req) (req_prompt req))).
  split; [exact (prefix_writes_nothing w cli read _ _ Hr) |].
  rewrite Hmain. rewrite <- !app_assoc. reflexivity.
Qed.

(** C8: when the generation call succeeds but the response has no entry, or
    no data at all, the process reports it, exits with status 1 and has
    written no file. *)
Theorem no_images_is_fatal (w : World) (cli : CommandLine)
        (req : GenerationRequest) (resp : ImagesResponse) :
  In (Generate req) (trace (main w cli)) ->
  images_generate w req = inl resp ->
  data resp = None \/ data resp = Some [] ->
  exit_code (main w cli) = 1%Z /\
  written_paths (trace (main w cli)) = [] /\
  In (ConsoleError "No images were generated") (trace (main w cli)).
Proof.
  intros Hin Hgen Hdata.
  destruct (main_after_call w cli req Hin) as [before [Hw Hmain]].
  assert (Hawait : await_generate w req =
                   ([ConsoleLog (JS.newline ++ "Successfully generated 0 image(s):");
                     ConsoleError "No images were generated"], Exited 1)).
  { unfold await_generate. rewrite Hgen.
    exact (handle_response_empty w resp Hdata). }
  rewrite Hmain, Hawait. split; [reflexivity |]. split.
  - unfold trace. cbn [fst]. rewrite written_paths_app, Hw. reflexivity.
  - unfold trace. cbn [fst]. apply in_or_app. right. simpl. tauto.
Qed.

(** A response whose [data] is the empty array. *)
Lemma no_images_is_fatal_witness :
  let w := sample_world (Some "sk-test") (Some []) in
  let cli := {| opts := default_options; args := ["A sunset over mountains"] |} in
  exit_code (main w cli) = 1%Z /\
  written_paths (trace (main w cli)) = [] /\
  In (ConsoleError "No images were generated") (trace (main w cli)).
Proof.
  intros w cli.
  apply (no_images_is_fatal w cli
           {| req_model := "dall-e-3"; req_prompt := "A sunset over mountains";
              req_n := JS.Int 1; req_size := "1024x1024" |}
           {| data := Some [] |}).
  - vm_compute. tauto.
  - reflexivity.
  - right. reflexivity.
Defined.

(** The four ways one iteration goes. *)
Lemma download_item_no_url (w : World) (i : nat) (imageData : Image) :
  lacks_url imageData = true ->
  trace (download_item w i imageData)
  = [ConsoleError ("Image " ++ JS.string_of_nat (i + 1) ++ ": No URL returned")].
Proof.
  unfold lacks_url, download_item.
  destruct (url imageData) as [[| c u] |]; simpl; intros H;
    try discriminate; reflexivity.
Qed.

Lemma download_item_fetch_failed (w : World) (i : nat) (imageData : Image)
      (u errorMessage : string) :
  url imageData = Some u -> u <> "" ->
  fetch_arrayBuffer w i u = Rejected errorMessage ->
  trace (download_item w i imageData)
  = [ConsoleLog (JS.newline ++ "Image " ++ JS.string_of_nat (i + 1) ++ ":");
     ConsoleLog ("URL: " ++ u);
     Fetch u;
     ConsoleError ("Failed to download image " ++ JS.string_of_nat (i + 1)
                   ++ ": " ++ errorMessage)].
Proof.
  intros Hu Hne Hfetch. unfold download_item. rewrite Hu.
  destruct u as [| c u]; [contradiction |]. rewrite Hfetch. reflexivity.
Qed.

Lemma download_item_write_failed (w : World) (i : nat) (imageData : Image)
      (u errorMessage : string) (buffer : Buffer) :
  url imageData = Some u -> u <> "" ->
  fetch_arrayBuffer w i u = Fulfilled buffer ->
  fs_writeFile w i (target_path w i) buffer = Rejected errorMessage ->
  trace (download_item w i imageData)
  = [ConsoleLog (JS.newline ++ "Image " ++ JS.string_of_nat (i + 1) ++ ":");
     ConsoleLog ("URL: " ++ u);
     Fetch u;
     WriteFile (target_path w i) buffer;
     ConsoleError ("Failed to download image " ++ JS.string_of_nat (i + 1)
                   ++ ": " ++ errorMessage)].
Proof.
  intros Hu Hne Hfetch Hwrite. unfold download_item. rewrite Hu.
  destruct u as [| c u]; [contradiction |]. rewrite Hfetch.
  cbv zeta. fold (target_path w i). rewrite Hwrite. reflexivity.
Qed.

Lemma download_item_saved (w : World) (i : nat) (imageData : Image)
      (u : string) (buffer : Buffer) :
  url imageData = Some u -> u <> "" ->
  fetch_arrayBuffer w i u = Fulfilled buffer ->
  fs_writeFile w i (target_path w i) buffer = Fulfilled tt ->
  trace (download_item w i imageData)
  = [ConsoleLog (JS.newline ++ "Image " ++ JS.string_of_nat (i + 1) ++ ":");
     ConsoleLog ("URL: " ++ u);
     Fetch u;
     WriteFile (target_path w i) buffer;
     ConsoleLog ("Saved to: " ++ target_path w i)].
Proof.
  intros Hu Hne Hfetch Hwrite. unfold download_item. rewrite Hu.
  destruct u as [| c u]; [contradiction |]. rewrite Hfetch.
  cbv zeta. fold (target_path w i). rewrite Hwrite. reflexivity.
Qed.

(** The run after a response with at least one entry. *)
Lemma main_with_entries (w : World) (cli : CommandLine) (req : GenerationRequest)
      (resp : ImagesResponse) (entries : list Image) :
  In (Generate req) (trace (main w cli)) ->
  images_generate w req = inl resp ->
  data resp = Some entries ->
  entries <> [] ->
  exists before,
    written_paths before = [] /\
    main w cli =
      (before ++ trace (download_loop w 0 entries)
              ++ [ConsoleLog (JS.newline ++ "Done!")],
       Done tt).
Proof.
  intros Hin Hgen Hdata Hne.
  destruct (main_after_call w cli req Hin) as [before [Hw Hmain]].
  destruct entries as [| e rest]; [contradiction |].
  exists (before
          ++ [Generate req;
              ConsoleLog (JS.newline ++ "Successfully generated "
                          ++ JS.string_of_nat (length (e :: rest))
                          ++ " image(s):")]).
  split.
  - rewrite written_paths_app, Hw. reflexivity.
  - rewrite Hmain. unfold await_generate. rewrite Hgen.
    rewrite (handle_response_entries w resp e rest Hdata).
    unfold trace at 1. cbn [fst snd]. rewrite <- app_assoc. reflexivity.
Qed.

(** C3: once the generation call has succeeded with at least one entry, the
    process exits with status 0 whatever happens to the items.  Every entry
    gets its iteration of the loop in the run, whatever happened to the
    entries before it; an entry without URL is reported; an entry with a URL
    is fetched, and a failed download or a failed write is reported with the
    position of the entry and the message of the error. *)
Theorem item_failures_do_not_abort (w : World) (cli : CommandLine)
        (req : GenerationRequest) (resp : ImagesResponse) (entries : list Image) :
  In (Generate req) (trace (main w cli)) ->
  images_generate w req = inl resp ->
  data resp = Some entries ->
  entries <> [] ->
  exit_code (main w cli) = 0%Z /\
  forall i imageData,
    nth_error entries i = Some imageData ->
    (exists before after,
        trace (main w cli)
        = before ++ trace (download_item w i imageData) ++ after) /\
    (lacks_url imageData = true ->
     In (ConsoleError ("Image " ++ JS.string_of_nat (i + 1) ++ ": No URL returned"))
        (trace (main w cli))) /\
    (forall u,
        url imageData = Some u -> u <> "" ->
        In (Fetch u) (trace (main w cli)) /\
        (forall errorMessage,
            fetch_arrayBuffer w i u = Rejected errorMessage ->
            In (ConsoleError ("Failed to download image " ++ JS.string_of_nat (i + 1)
                              ++ ": " ++ errorMessage))
               (trace (main w cli))) /\
        (forall buffer errorMessage,
            fetch_arrayBuffer w i u = Fulfilled buffer ->
            fs_writeFile w i (target_path w i) buffer = Rejected errorMessage ->
            In (ConsoleError ("Failed to download image " ++ JS.string_of_nat (i + 1)
                              ++ ": " ++ errorMessage))
               (trace (main w cli)))).
Proof.
  intros Hin Hgen Hdata Hne.
  destruct (main_with_entries w cli req resp entries Hin Hgen Hdata Hne)
    as [before [_ Hmain]].
  split; [rewrite Hmain; reflexivity |].
  intros i imageData Hnth.
  destruct (download_loop_visits w entries 0 i imageData Hnth)
    as [b [a Hloop]]. simpl in Hloop.
  assert (Hseg : trace (main w cli)
                 = (before ++ b) ++ trace (download_item w i imageData)
                   ++ (a ++ [ConsoleLog (JS.newline ++ "Done!")])).
  { rewrite Hmain. unfold trace at 1. cbn [fst]. rewrite Hloop.
    rewrite <- !app_assoc. reflexivity. }
  assert (Hsub : forall e, In e (trace (download_item w i imageData)) ->
                           In e (trace (main w cli))).
  { intros e He. rewrite Hseg. apply in_or_app. right.
    apply in_or_app. now left. }
  split; [| split].
  - now exists (before ++ b), (a ++ [ConsoleLog (JS.newline ++ "Done!")]).
  - intros Hno. apply Hsub. rewrite (download_item_no_url w i imageData Hno).
    now left.
  - intros u Hu Hue. split; [| split].
    + apply Hsub. unfold download_item. rewrite Hu.
      destruct u as [| c u]; [contradiction |].
      destruct (fetch_arrayBuffer w i (String c u)) as [buffer | msg].
      * cbv zeta.
        destruct (fs_writeFile w i _ buffer) as [[] | msg]; simpl; tauto.
      * simpl; tauto.
    + intros msg Hfetch. apply Hsub.
      rewrite (download_item_fetch_failed w i imageData u msg Hu Hue Hfetch).
      simpl; tauto.
    + intros buffer msg Hfetch Hwrite. apply Hsub.
      rewrite (download_item_write_failed w i imageData u msg buffer
                 Hu Hue Hfetch Hwrite).
      simpl; tauto.
Qed.

(** Three entries, every one of which fails: no URL, a download that is
    rejected, an empty URL. *)
Lemma item_failures_do_not_abort_witness :
  let entries := [ {| url := None |}; {| url := Some "https://img/broken" |};
                   {| url := Some "" |} ] in
  let w := sample_world (Some "sk-test") (Some entries) in
  let cli := {| opts := {| opt_prompt := None; opt_promptFile := None;
                           opt_size := "512x512"; opt_n := "3";
                           opt_model := "dall-e-2" |};
                args := ["A cute robot"] |} in
  exit_code (main w cli) = 0%Z /\
  In (ConsoleError "Image 1: No URL returned") (trace (main w cli)) /\
  In (ConsoleError "Failed to download image 2: fetch failed") (trace (main w cli)) /\
  In (ConsoleError "Image 3: No URL returned") (trace (main w cli)).
Proof.
  intros entries w cli.
  destruct (item_failures_do_not_abort w cli
              {| req_model := "dall-e-2"; req_prompt := "A cute robot";
                 req_n := JS.Int 3; req_size := "512x512" |}
              {| data := Some entries |} entries)
    as [Hexit Hitems].
  - vm_compute. tauto.
  - reflexivity.
  - reflexivity.
  - discriminate.
  - split; [exact Hexit |]. split; [| split].
    + apply (proj1 (proj2 (Hitems 0 {| url := None |} eq_refl))). reflexivity.
    + apply (proj2 (proj2 (Hitems 1 {| url := Some "https://img/broken" |} eq_refl))
               "https://img/broken" eq_refl ltac:(discriminate)).
      reflexivity.
    + apply (proj1 (proj2 (Hitems 2 {| url := Some "" |} eq_refl))). reflexivity.
Defined.

(** ** The files written *)

Lemma all_transfers_succeed_cons (w : World) (i : nat) (imageData : Image)
      (rest : list Image) :
  all_transfers_succeed w i (imageData :: rest) ->
  (forall u, url imageData = Some u -> u <> "" ->
             exists buffer,
               fetch_arrayBuffer w i u = Fulfilled buffer /\
               fs_writeFile w i (target_path w i) buffer = Fulfilled tt) /\
  all_transfers_succeed w (S i) rest.
Proof.
  intros H. split.
  - intros u Hu Hne. specialize (H 0 imageData u eq_refl Hu Hne).
    now rewrite Nat.add_0_r in H.
  - intros k e u Hk Hu Hne. specialize (H (S k) e u Hk Hu Hne).
    now replace (i + S k) with (S i + k) in H by lia.
Qed.

Lemma download_loop_writes (w : World) (entries : list Image) :
  forall i,
    all_transfers_succeed w i entries ->
    written_paths (trace (download_loop w i entries))
    = map (target_path w) (url_positions i entries).
Proof.
  induction entries as [| e rest IH]; intros i Hall.
  - reflexivity.
  - apply all_transfers_succeed_cons in Hall as [Hitem Hrest].
    rewrite download_loop_cons. unfold trace at 1. cbn [fst].
    rewrite written_paths_app, (IH (S i) Hrest). simpl url_positions.
    destruct (lacks_url e) eqn:Hlack.
    + rewrite (download_item_no_url w i e Hlack). reflexivity.
    + unfold lacks_url in Hlack.
      destruct (url e) as [[| c u] |] eqn:Hu; try discriminate Hlack.
      destruct (Hitem (String c u) eq_refl ltac:(discriminate))
        as [buffer [Hfetch Hwrite]].
      rewrite (download_item_saved w i e (String c u) buffer Hu
                 ltac:(discriminate) Hfetch Hwrite).
      reflexivity.
Qed.

Lemma url_positions_length (entries : list Image) :
  forall i,
    length (url_positions i entries)
    = length entries - length (filter lacks_url entries).
Proof.
  induction entries as [| e rest IH]; intros i.
  - reflexivity.
  - assert (Hle : length (filter lacks_url rest) <= length rest)
      by apply filter_length_le.
    cbn [url_positions filter].
    destruct (lacks_url e); cbn [length]; rewrite (IH (S i)); lia.
Qed.

(** The positions listed are those of the entries with a URL, in result
    order. *)
Lemma url_positions_spec (entries : list Image) :
  forall i p,
    In p (url_positions i entries) <->
    exists k imageData,
      p = i + k /\ nth_error entries k = Some imageData /\
      lacks_url imageData = false.
Proof.
  induction entries as [| e rest IH]; intros i p; simpl.
  - split; [contradiction | intros [k [x [_ [H _]]]]; destruct k; discriminate].
  - split.
    + intros H.
      assert (Hrest : In p (url_positions (S i) rest) ->
                      exists k imageData,
                        p = i + k /\ nth_error (e :: rest) k = Some imageData /\
                        lacks_url imageData = false).
      { intros Hin. apply IH in Hin as [k [x [-> [Hk Hx]]]].
        exists (S k), x. repeat split; [lia | assumption | assumption]. }
      destruct (lacks_url e) eqn:Hlack; [now apply Hrest |].
      destruct H as [<- | H]; [| now apply Hrest].
      exists 0, e. repeat split; [lia | assumption].
    + intros [k [x [-> [Hk Hx]]]].
      assert (Hrest : forall k', nth_error rest k' = Some x ->
                                 In (S i + k') (url_positions (S i) rest)).
      { intros k' Hk'. apply IH. now exists k', x. }
      destruct k as [| k]; simpl in Hk.
      * injection Hk as ->. rewrite Hx, Nat.add_0_r. now left.
      * replace (i + S k) with (S i + k) by lia.
        destruct (lacks_url e); [| right]; now apply Hrest.
Qed.

Lemma url_positions_bound (entries : list Image) :
  forall i p, In p (url_positions i entries) -> i <= p.
Proof.
  intros i p H. apply url_positions_spec in H as [k [x [-> _]]]. lia.
Qed.

Lemma url_positions_sorted (entries : list Image) :
  forall i, StronglySorted lt (url_positions i entries).
Proof.
  induction entries as [| e rest IH]; intros i; simpl.
  - constructor.
  - destruct (lacks_url e); [apply IH |].
    constructor; [apply IH |].
    apply Forall_forall. intros p Hp. apply url_positions_bound in Hp. lia.
Qed.

Lemma url_positions_NoDup (entries : list Image) :
  forall i, NoDup (url_positions i entries).
Proof.
  induction entries as [| e rest IH]; intros i; simpl.
  - constructor.
  - destruct (lacks_url e); [apply IH |].
    constructor; [| apply IH].
    intros H. apply url_positions_bound in H. lia.
Qed.

(** ** File names *)

Lemma string_of_uint_all_digits (d : Decimal.uint) :
  JS.all_digits (NilEmpty.string_of_uint d) = true.
Proof. induction d; simpl; auto. Qed.

Lemma string_of_uint_inj (d d' : Decimal.uint) :
  NilEmpty.string_of_uint d = NilEmpty.string_of_uint d' -> d = d'.
Proof.
  intros H. pose proof (NilEmpty.usu d) as Hd. rewrite H, NilEmpty.usu in Hd.
  now injection Hd.
Qed.

Lemma string_of_nat_all_digits (k : nat) :
  JS.all_digits (JS.string_of_nat k) = true.
Proof. apply string_of_uint_all_digits. Qed.

Lemma string_of_N_all_digits (k : N) :
  JS.all_digits (JS.string_of_N k) = true.
Proof. apply string_of_uint_all_digits. Qed.

Lemma string_of_nat_inj (k k' : nat) :
  JS.string_of_nat k = JS.string_of_nat k' -> k = k'.
Proof.
  intros H. apply string_of_uint_inj in H.
  now apply DecimalNat.Unsigned.to_uint_inj.
Qed.


Lemma string_of_N_nonempty (k : N) : JS.string_of_N k <> "".
Proof.
  unfold JS.string_of_N. intros H.
  change "" with (NilEmpty.string_of_uint Decimal.Nil) in H.
  apply string_of_uint_inj in H.
  pose proof (DecimalN.Unsigned.of_to k) as Hk. rewrite H in Hk.
  simpl in Hk. subst k. discriminate H.
Qed.

Lemma append_cancel_l (p a b : string) : (p ++ a = p ++ b)%string -> a = b.
Proof.
  induction p as [| c p IH]; simpl; intros H; [assumption |].
  injection H as H. now apply IH.
Qed.

(** A run of digits ends where the first character that is not a digit
    stands. *)
Lemma digits_split (c : ascii) (d1 : string) :
  JS.is_digit c = false ->
  forall d2 r1 r2,
    JS.all_digits d1 = true -> JS.all_digits d2 = true ->
    (d1 ++ String c r1 = d2 ++ String c r2)%string ->
    d1 = d2 /\ r1 = r2.
Proof.
  intros Hc. induction d1 as [| a d1 IH]; intros [| b d2] r1 r2 H1 H2 Heq;
    simpl in *.
  - injection Heq as ->. auto.
  - injection Heq as -> _. apply andb_prop in H2 as [Hb _]. congruence.
  - injection Heq as -> _. apply andb_prop in H1 as [Ha _]. congruence.
  - injection Heq as -> Heq.
    apply andb_prop in H1 as [_ H1]. apply andb_prop in H2 as [_ H2].
    destruct (IH d2 r1 r2 H1 H2 Heq) as [-> ->]. auto.
Qed.

(** The name has the shape generated_image_<digits>_<index>.png. *)
Lemma filename_pattern (timestamp : N) (index : nat) :
  exists digits,
    filename timestamp index
    = ("generated_image_" ++ digits ++ "_" ++ JS.string_of_nat index ++ ".png")%string /\
    digits <> "" /\
    JS.all_digits digits = true.
Proof.
  exists (JS.string_of_N timestamp). split; [reflexivity |].
  split; [apply string_of_N_nonempty | apply string_of_N_all_digits].
Qed.

(** Names written for different positions differ, whatever the clock says. *)
Lemma filename_index_inj (t1 t2 : N) (k1 k2 : nat) :
  filename t1 k1 = filename t2 k2 -> k1 = k2.
Proof.
  unfold filename. intros H. apply append_cancel_l in H.
  change ("_" ++ ?r)%string with (String "_" r) in H.
  apply (digits_split "_") in H as [_ H];
    [| reflexivity | apply string_of_N_all_digits | apply string_of_N_all_digits].
  change ".png" with (String "." "png") in H.
  apply (digits_split ".") in H as [H _];
    [| reflexivity | apply string_of_nat_all_digits | apply string_of_nat_all_digits].
  now apply string_of_nat_inj.
Qed.

Lemma filenames_NoDup (w : World) (positions : list nat) :
  NoDup positions ->
  NoDup (map (fun i => filename (date_now w i) (i + 1)) positions).
Proof.
  induction 1 as [| p l Hp Hl IH]; simpl; constructor; [| assumption].
  intros Hin. apply in_map_iff in Hin as [q [Heq Hq]].
  apply filename_index_inj in Heq.
  assert (q = p) by lia. subst q. contradiction.
Qed.

(** C4, as stated, does not hold for N = 0: a response with no entry has no
    entry without URL and no transfer to fail, yet the process exits with
    status 1, not 0. *)
Lemma files_written_counterexample : ~ files_written_as_stated.
Proof.
  intros H.
  pose (w := sample_world (Some "sk-test") (Some [])).
  pose (cli := {| opts := default_options; args := ["A sunset over mountains"] |}).
  pose (req := {| req_model := "dall-e-3"; req_prompt := "A sunset over mountains";
                  req_n := JS.Int 1; req_size := "1024x1024" |}).
  assert (Hin : In (Generate req) (trace (main w cli))).
  { vm_compute. tauto. }
  assert (Hall : all_transfers_succeed w 0 []).
  { intros k e u Hk. destruct k; discriminate Hk. }
  destruct (H w cli req {| data := Some [] |} [] Hin eq_refl eq_refl Hall)
    as [_ Hexit].
  vm_compute in Hexit. discriminate Hexit.
Qed.

(** C4 (amended): when the generation call returns N >= 1 entries of which M
    lack a URL, and every download and write for the others succeeds, the
    process exits with status 0 and writes exactly N - M files: one for each
    entry with a URL, in result order, at the path joined from the working
    directory and the name generated_image_<digits>_<index>.png, where
    <digits> is the clock reading of that iteration and <index> the 1-based
    position of the entry.  No two of these names are equal. *)
Theorem files_written (w : World) (cli : CommandLine) (req : GenerationRequest)
        (resp : ImagesResponse) (entries : list Image) :
  In (Generate req) (trace (main w cli)) ->
  images_generate w req = inl resp ->
  data resp = Some entries ->
  entries <> [] ->
  all_transfers_succeed w 0 entries ->
  let positions := url_positions 0 entries in
  let name := fun i => filename (date_now w i) (i + 1) in
  exit_code (main w cli) = 0%Z /\
  written_paths (trace (main w cli))
  = map (fun i => path_join w (process_cwd w) (name i)) positions /\
  length (written_paths (trace (main w cli)))
  = length entries - length (filter lacks_url entries) /\
  (forall i, In i positions <->
             exists imageData, nth_error entries i = Some imageData /\
                               lacks_url imageData = false) /\
  StronglySorted lt positions /\
  (forall i, exists digits,
      name i = ("generated_image_" ++ digits ++ "_"
                ++ JS.string_of_nat (i + 1) ++ ".png")%string /\
      digits <> "" /\ JS.all_digits digits = true /\
      JS.all_digits (JS.string_of_nat (i + 1)) = true) /\
  NoDup (map name positions).
Proof.
  intros Hin Hgen Hdata Hne Hall positions name.
  destruct (main_with_entries w cli req resp entries Hin Hgen Hdata Hne)
    as [before [Hw Hmain]].
  assert (Hpaths : written_paths (trace (main w cli))
                   = map (target_path w) positions).
  { rewrite Hmain. unfold trace at 1. cbn [fst].
    rewrite !written_paths_app, Hw, (download_loop_writes w entries 0 Hall).
    simpl. now rewrite app_nil_r. }
  split; [rewrite Hmain; reflexivity |].
  split; [exact Hpaths |].
  split; [rewrite Hpaths, length_map; apply url_positions_length |].
  split; [| split; [| split]].
  - intros i. unfold positions. rewrite url_positions_spec. split.
    + intros [k [x [-> [Hk Hx]]]]. now exists x.
    + intros [x [Hk Hx]]. now exists i, x.
  - apply url_positions_sorted.
  - intros i. destruct (filename_pattern (date_now w i) (i + 1))
      as [digits [Hname [Hd1 Hd2]]].
    exists digits. repeat split; try assumption.
    apply string_of_nat_all_digits.
  - apply filenames_NoDup, url_positions_NoDup.
Qed.

(** Three entries, the second without URL: two files. *)
Lemma files_written_witness :
  let entries := [ {| url := Some "https://img/1" |}; {| url := None |};
                   {| url := Some "https://img/3" |} ] in
  let w := sample_world (Some "sk-test") (Some entries) in
  let cli := {| opts := {| opt_prompt := None; opt_promptFile := None;
                           opt_size := "512x512"; opt_n := "3";
                           opt_model := "dall-e-2" |};
                args := ["A cute robot"] |} in
  exit_code (main w cli) = 0%Z /\
  written_paths (trace (main w cli))
  = ["/work/generated_image_1700000000000_1.png";
     "/work/generated_image_1700000000002_3.png"] /\
  length (written_paths (trace (main w cli))) = 3 - 1.
Proof.
  intros entries w cli.
  assert (Hall : all_transfers_succeed w 0 entries).
  { intros k e u Hk Hu Hne. exists [].
    destruct k as [| [| [| k]]]; simpl in Hk.
    - injection Hk as <-. injection Hu as <-. split; reflexivity.
    - injection Hk as <-. discriminate Hu.
    - injection Hk as <-. injection Hu as <-. split; reflexivity.
    - destruct k; discriminate Hk. }
  destruct (files_written w cli
              {| req_model := "dall-e-2"; req_prompt := "A cute robot";
                 req_n := JS.Int 3; req_size := "512x512" |}
              {| data := Some entries |} entries)
    as [Hexit [Hpaths [Hlen _]]].
  - vm_compute. tauto.
  - reflexivity.
  - reflexivity.
  - discriminate.
  - exact Hall.
  - split; [exact Hexit |]. split; [| exact Hlen].
    rewrite Hpaths. reflexivity.
Defined.

(** * Further properties of the program *)

(** ** A rejected generation call *)

Lemma prefix_local (w : World) (cli : CommandLine) (read : list Event)
      (thePrompt : string) (n' : JS.Number) :
  read_only w read ->
  forallb local_event
    (read ++ trace (apply_model_policy (params_of cli (Some thePrompt)))
          ++ trace (announce (params_of cli (Some thePrompt)) n' thePrompt))
  = true.
Proof.
  intros Hr. rewrite !forallb_app, (read_only_local w read Hr),
    apply_model_policy_local, announce_local. reflexivity.
Qed.

(** The trace of a run that reaches the provider: local events, the call,
    and what follows the settled promise. *)
Lemma main_call_split (w : World) (cli : CommandLine) (req : GenerationRequest) :
  In (Generate req) (trace (main w cli)) ->
  exists before,
    forallb local_event before = true /\
    main w cli = (before ++ Generate req :: trace (await_generate w req),
                  snd (await_generate w req)).
Proof.
  intros Hin.
  destruct (main_reaches_call w cli req Hin) as [read [Hr [_ [_ [_ Hmain]]]]].
  exists (read
          ++ trace (apply_model_policy (params_of cli (Some (req_prompt req))))
          ++ trace (announce (params_of cli (Some (req_prompt req)))
                             (req_n req) (req_prompt req))).
  split; [exact (prefix_local w cli read _ _ Hr) |].
  rewrite Hmain. rewrite <- !app_assoc. reflexivity.
Qed.

(** X1: when the provider rejects the generation call, the process exits
    with status 1 after the diagnostic: the header, then the status and the
    provider's message (or, when the payload has none, the message of the
    error) if the error carries a response, and the message of the error
    alone otherwise.  The generation call is the only network call of the
    run and no file is written. *)
Theorem generation_failure_is_fatal (w : World) (cli : CommandLine)
        (req : GenerationRequest) (error : ApiError) :
  In (Generate req) (trace (main w cli)) ->
  images_generate w req = inr error ->
  exit_code (main w cli) = 1%Z /\
  network_calls (trace (main w cli)) = [Generate req] /\
  written_paths (trace (main w cli)) = [] /\
  exists before,
    forallb local_event before = true /\
    trace (main w cli)
    = before
      ++ Generate req
      :: ConsoleError (JS.newline ++ "Error generating images:")
      :: match response error with
         | Some r =>
             [ConsoleError ("Status: " ++ JS.string_of_Z (status r));
              ConsoleError ("Message: " ++ provider_message r error)]
         | None => [ConsoleError (message error)]
         end.
Proof.
  intros Hin Herr.
  destruct (main_call_split w cli req Hin) as [before [Hloc Hmain]].
  destruct (local_events_quiet _ Hloc) as [_ [Hn Hw]].
  assert (Hawait : await_generate w req =
                   (ConsoleError (JS.newline ++ "Error generating images:")
                    :: match response error with
                       | Some r =>
                           [ConsoleError ("Status: " ++ JS.string_of_Z (status r));
                            ConsoleError ("Message: " ++ provider_message r error)]
                       | None => [ConsoleError (message error)]
                       end,
                    Exited 1)).
  { unfold await_generate. rewrite Herr. unfold report_generation_error.
    destruct (response error) as [r |]; [| reflexivity].
    unfold provider_message.
    destruct (data_error_message r) as [[| c m] |]; reflexivity. }
  rewrite Hmain, Hawait. split; [reflexivity |].
  unfold trace. cbn [fst].
  rewrite network_calls_app, written_paths_app, Hn, Hw.
  split; [| split].
  - destruct (response error); reflexivity.
  - destruct (response error); reflexivity.
  - exists before. split; [assumption | reflexivity].
Qed.

(** An invalid size rejected by the provider with a payload. *)
Lemma generation_failure_is_fatal_witness :
  let error := {| response := Some {| status := 400;
                                      data_error_message := Some "Invalid size" |};
                  message := "Request failed with status code 400" |} in
  let w := {| env_OPENAI_API_KEY := Some "sk-test";
              fs_readFile := fun _ => Rejected "ENOENT";
              images_generate := fun _ => inr error;
              fetch_arrayBuffer := fun _ _ => Fulfilled [];
              date_now := fun _ => 0%N;
              process_cwd := "/work";
              path_join := fun a b => (a ++ "/" ++ b)%string;
              fs_writeFile := fun _ _ _ => Fulfilled tt |} in
  let cli := {| opts := {| opt_prompt := None; opt_promptFile := None;
                           opt_size := "7x7"; opt_n := "1";
                           opt_model := "dall-e-3" |};
                args := ["A sunset"] |} in
  exit_code (main w cli) = 1%Z /\
  fetched_urls (trace (main w cli)) = [] /\
  written_paths (trace (main w cli)) = [].
Proof.
  intros error w cli.
  destruct (generation_failure_is_fatal w cli
              {| req_model := "dall-e-3"; req_prompt := "A sunset";
                 req_n := JS.Int 1; req_size := "7x7" |} error)
    as [Hexit [_ [Hw _]]].
  - vm_compute. tauto.
  - reflexivity.
  - split; [exact Hexit |]. split; [reflexivity | exact Hw].
Defined.

(** ** Exit status and outbound traffic of a whole run *)

Lemma await_generate_exit (w : World) (req : GenerationRequest) :
  (exists resp e rest,
      images_generate w req = inl resp /\ data resp = Some (e :: rest) /\
      snd (await_generate w req) = Done tt)
  \/ ((forall resp e rest, images_generate w req = inl resp ->
                           data resp <> Some (e :: rest)) /\
      snd (await_generate w req) = Exited 1).
Proof.
  unfold await_generate.
  destruct (images_generate w req) as [resp | error] eqn:Hgen.
  - destruct (data resp) as [[| e rest] |] eqn:Hd.
    + right. split.
      * intros resp' e rest H. injection H as <-. rewrite Hd. discriminate.
      * rewrite handle_response_empty by auto. reflexivity.
    + left. exists resp, e, rest. repeat split; try assumption.
      rewrite (handle_response_entries w resp e rest Hd). reflexivity.
    + right. split.
      * intros resp' e rest H. injection H as <-. rewrite Hd. discriminate.
      * rewrite handle_response_empty by auto. reflexivity.
  - right. split; [discriminate |].
    unfold report_generation_error. destruct (response error); reflexivity.
Qed.

(** A run that makes no generation call exits with status 1. *)
Lemma main_without_call (w : World) (cli : CommandLine) :
  generation_requests (trace (main w cli)) = [] ->
  snd (main w cli) = Exited 1.
Proof.
  destruct (main_cases w cli) as [f msg Hf | read Hk Hr | read Hk Hr
                                 | read thePrompt Hk Hne Hr];
    try reflexivity.
  intros Hnone. exfalso.
  assert (Hin : In (request_of cli thePrompt) []); [| contradiction].
  rewrite <- Hnone. apply in_generation_requests.
  unfold trace at 1. cbn [fst].
  apply in_or_app. right. apply in_or_app. right. apply in_or_app. right.
  now left.
Qed.

(** X2: the exit status of a run is 0 or 1, and it is 0 exactly when the
    run made a generation call that was fulfilled with at least one entry;
    every other run (unreadable prompt file, no credential, no prompt,
    rejected call, no entry) exits with status 1. *)
Theorem exit_status_characterised (w : World) (cli : CommandLine) :
  (exit_code (main w cli) = 0%Z \/ exit_code (main w cli) = 1%Z) /\
  (exit_code (main w cli) = 0%Z <->
   exists req resp e rest,
     In (Generate req) (trace (main w cli)) /\
     images_generate w req = inl resp /\
     data resp = Some (e :: rest)).
Proof.
  destruct (generation_requests (trace (main w cli))) as [| r l] eqn:Hreqs.
  - pose proof (main_without_call w cli Hreqs) as Hexit.
    unfold exit_code. rewrite Hexit. split; [now right |]. split.
    + discriminate.
    + intros [req [resp [e [rest [Hin _]]]]].
      apply in_generation_requests in Hin. rewrite Hreqs in Hin. contradiction.
  - assert (Hin : In (Generate r) (trace (main w cli))).
    { apply in_generation_requests. rewrite Hreqs. now left. }
    destruct (main_call_split w cli r Hin) as [before [_ Hmain]].
    assert (Hcode : exit_code (main w cli)
                    = match snd (await_generate w r) with
                      | Done _ => 0%Z | Exited c => c end).
    { rewrite Hmain. reflexivity. }
    destruct (await_generate_exit w r)
      as [[resp [e [rest [Hgen [Hd Hs]]]]] | [Hnone Hs]];
      rewrite Hcode, Hs.
    + split; [now left |]. split; [| reflexivity].
      intros _. now exists r, resp, e, rest.
    + split; [now right |]. split; [discriminate |].
      intros [req [resp [e [rest [Hin' [Hgen Hd]]]]]]. exfalso.
      pose proof (main_single_call w cli req Hin') as Hone.
      rewrite Hreqs in Hone. injection Hone as -> _.
      exact (Hnone resp e rest Hgen Hd).
Qed.

(** One entry with a URL: the run is fulfilled and exits with status 0. *)
Lemma exit_status_characterised_witness :
  let w := sample_world (Some "sk-test") (Some [ {| url := Some "https://img/1" |} ]) in
  let cli := {| opts := default_options; args := ["A sunset"] |} in
  exit_code (main w cli) = 0%Z.
Proof.
  intros w cli. apply (proj2 (proj2 (exit_status_characterised w cli))).
  exists {| req_model := "dall-e-3"; req_prompt := "A sunset";
            req_n := JS.Int 1; req_size := "1024x1024" |},
         {| data := Some [ {| url := Some "https://img/1" |} ] |},
         {| url := Some "https://img/1" |}, [].
  split; [vm_compute; tauto |]. split; reflexivity.
Defined.

Lemma fetched_urls_app (t1 t2 : list Event) :
  fetched_urls (t1 ++ t2) = fetched_urls t1 ++ fetched_urls t2.
Proof. apply flat_map_app. Qed.

Lemma write_calls_app (t1 t2 : list Event) :
  write_calls (t1 ++ t2) = write_calls t1 ++ write_calls t2.
Proof. apply flat_map_app. Qed.

Lemma error_lines_app (t1 t2 : list Event) :
  error_lines (t1 ++ t2) = error_lines t1 ++ error_lines t2.
Proof. apply flat_map_app. Qed.

Lemma saved_lines_app (t1 t2 : list Event) :
  saved_lines (t1 ++ t2) = saved_lines t1 ++ saved_lines t2.
Proof. apply flat_map_app. Qed.

Lemma warning_lines_app (t1 t2 : list Event) :
  warning_lines (t1 ++ t2) = warning_lines t1 ++ warning_lines t2.
Proof. apply flat_map_app. Qed.

(** Among download events the network calls are the fetches. *)
Lemma download_events_network (t : list Event) :
  forallb download_event t = true ->
  network_calls t = map Fetch (fetched_urls t).
Proof.
  induction t as [| e t IH]; simpl; [reflexivity |].
  intros H. apply andb_prop in H as [He Ht].
  destruct e; try discriminate; simpl; rewrite (IH Ht); reflexivity.
Qed.

Lemma local_events_no_fetch (t : list Event) :
  forallb local_event t = true -> fetched_urls t = [] /\ write_calls t = [].
Proof.
  induction t as [| e t IH]; simpl; [auto |].
  intros H. apply andb_prop in H as [He Ht]. destruct (IH Ht) as [Hf Hw].
  destruct e; try discriminate; simpl; auto.
Qed.

(** X3: a run never calls the provider twice: there is no retry, whatever
    the provider, the downloads and the writes answer. *)
Theorem at_most_one_generation_call (w : World) (cli : CommandLine) :
  length (generation_requests (trace (main w cli))) <= 1.
Proof.
  destruct (generation_requests (trace (main w cli))) as [| r l] eqn:Hreqs.
  - simpl. lia.
  - assert (Hin : In (Generate r) (trace (main w cli))).
    { apply in_generation_requests. rewrite Hreqs. now left. }
    pose proof (main_single_call w cli r Hin) as Hone.
    rewrite Hreqs in Hone. injection Hone as ->. simpl. lia.
Qed.

(** X4: nothing leaves the machine and nothing is written unless the
    credential is set and a non-empty prompt was resolved.  A run either
    makes no network call and no write at all, or its network calls are one
    generation call, carrying a non-empty prompt, followed by downloads
    only. *)
Theorem outbound_traffic_shape (w : World) (cli : CommandLine) :
  (network_calls (trace (main w cli)) = [] /\
   written_paths (trace (main w cli)) = [])
  \/ (JS.truthy (env_OPENAI_API_KEY w) = true /\
      exists req,
        req_prompt req <> "" /\
        network_calls (trace (main w cli))
        = Generate req :: map Fetch (fetched_urls (trace (main w cli)))).
Proof.
  destruct (generation_requests (trace (main w cli))) as [| r l] eqn:Hreqs.
  - left. revert Hreqs.
    destruct (main_cases w cli) as [f msg Hf | read Hk Hr | read Hk Hr
                                   | read thePrompt Hk Hne Hr]; intros Hreqs.
    + split; reflexivity.
    + destruct (local_events_quiet _ (read_only_local w read Hr)) as [_ [Hn Hw]].
      unfold trace. cbn [fst]. rewrite network_calls_app, written_paths_app, Hn, Hw.
      split; reflexivity.
    + destruct (local_events_quiet _ (read_only_local w read Hr)) as [_ [Hn Hw]].
      unfold trace. cbn [fst]. rewrite network_calls_app, written_paths_app, Hn, Hw.
      split; reflexivity.
    + exfalso.
      assert (Hin : In (request_of cli thePrompt) []); [| contradiction].
      rewrite <- Hreqs. apply in_generation_requests.
      unfold trace at 1. cbn [fst].
      apply in_or_app. right. apply in_or_app. right. apply in_or_app. right.
      now left.
  - right.
    assert (Hin : In (Generate r) (trace (main w cli))).
    { apply in_generation_requests. rewrite Hreqs. now left. }
    destruct (main_reaches_call w cli r Hin) as [_ [_ [Hk [Hne _]]]].
    destruct (main_call_split w cli r Hin) as [before [Hloc Hmain]].
    split; [exact Hk |]. exists r. split; [exact Hne |].
    destruct (local_events_quiet _ Hloc) as [_ [Hn _]].
    destruct (local_events_no_fetch _ Hloc) as [Hf _].
    rewrite Hmain. unfold trace at 1 3. cbn [fst].
    rewrite network_calls_app, fetched_urls_app, Hn, Hf.
    change (network_calls (Generate r :: ?t)) with (Generate r :: network_calls t).
    change (fetched_urls (Generate r :: ?t)) with (fetched_urls t).
    rewrite (download_events_network _ (await_generate_events w r)).
    reflexivity.
Qed.

(** ** What the loop fetches and writes, whatever fails *)

Lemma trace_pair {A : Type} (t : list Event) (o : Outcome A) : trace (t, o) = t.
Proof. reflexivity. Qed.

Lemma download_item_fetched (w : World) (i : nat) (imageData : Image) :
  fetched_urls (trace (download_item w i imageData)) = urls_of [imageData].
Proof.
  unfold download_item, urls_of. cbn [flat_map].
  destruct (url imageData) as [[| c u] |]; try reflexivity.
  destruct (fetch_arrayBuffer w i (String c u)) as [buffer | msg]; [| reflexivity].
  cbn. destruct (fs_writeFile w i _ buffer) as [[] | msg]; reflexivity.
Qed.

Lemma download_loop_fetched (w : World) (entries : list Image) :
  forall i, fetched_urls (trace (download_loop w i entries)) = urls_of entries.
Proof.
  induction entries as [| e rest IH]; intros i.
  - reflexivity.
  - rewrite download_loop_cons. unfold trace at 1. cbn [fst].
    rewrite fetched_urls_app, download_item_fetched, (IH (S i)).
    unfold urls_of. simpl. now rewrite app_nil_r.
Qed.

Lemma download_item_write_calls (w : World) (i : nat) (imageData : Image) :
  write_calls (trace (download_item w i imageData))
  = map (fun d => (target_path w (fst d), snd d)) (downloads w i [imageData]).
Proof.
  unfold download_item, downloads.
  destruct (url imageData) as [[| c u] |]; try reflexivity.
  destruct (fetch_arrayBuffer w i (String c u)) as [buffer | msg]; [| reflexivity].
  cbn. destruct (fs_writeFile w i _ buffer) as [[] | msg]; reflexivity.
Qed.

Lemma downloads_cons (w : World) (i : nat) (imageData : Image) (rest : list Image) :
  downloads w i (imageData :: rest)
  = downloads w i [imageData] ++ downloads w (S i) rest.
Proof.
  simpl. destruct (url imageData) as [[| c u] |]; try reflexivity.
  destruct (fetch_arrayBuffer w i (String c u)); reflexivity.
Qed.

Lemma download_loop_write_calls (w : World) (entries : list Image) :
  forall i,
    write_calls (trace (download_loop w i entries))
    = map (fun d => (target_path w (fst d), snd d)) (downloads w i entries).
Proof.
  induction entries as [| e rest IH]; intros i.
  - reflexivity.
  - rewrite download_loop_cons. unfold trace at 1. cbn [fst].
    rewrite write_calls_app, download_item_write_calls, (IH (S i)).
    rewrite (downloads_cons w i e rest), map_app. reflexivity.
Qed.

(** Each iteration ends in exactly one outcome line: an error or
    "Saved to: ...". *)
Lemma download_item_outcome (w : World) (i : nat) (imageData : Image) :
  length (error_lines (trace (download_item w i imageData)))
  + length (saved_lines (trace (download_item w i imageData))) = 1.
Proof.
  unfold download_item.
  destruct (url imageData) as [[| c u] |]; try reflexivity.
  destruct (fetch_arrayBuffer w i (String c u)) as [buffer | msg]; [| reflexivity].
  cbn. destruct (fs_writeFile w i _ buffer) as [[] | msg]; reflexivity.
Qed.

Lemma download_loop_outcomes (w : World) (entries : list Image) :
  forall i,
    length (error_lines (trace (download_loop w i entries)))
    + length (saved_lines (trace (download_loop w i entries)))
    = length entries.
Proof.
  induction entries as [| e rest IH]; intros i.
  - reflexivity.
  - rewrite download_loop_cons, !trace_pair.
    rewrite error_lines_app, saved_lines_app, !length_app.
    pose proof (download_item_outcome w i e). specialize (IH (S i)).
    simpl length. lia.
Qed.

(** The trace of [await_generate] for a fulfilled call, with the entries
    read as [response.data || []]. *)
Lemma await_generate_fulfilled (w : World) (req : GenerationRequest)
      (resp : ImagesResponse) :
  images_generate w req = inl resp ->
  let entries := match data resp with Some l => l | None => [] end in
  exists first last,
    trace (await_generate w req)
    = ConsoleLog first :: trace (download_loop w 0 entries) ++ last /\
    starts_with "Saved to: " first = false /\
    forallb console_event last = true /\
    error_lines last
    = match entries with [] => ["No images were generated"] | _ => [] end /\
    saved_lines last = [].
Proof.
  intros Hgen entries. unfold await_generate. rewrite Hgen.
  destruct (data resp) as [[| e rest] |] eqn:Hd; subst entries.
  - rewrite handle_response_empty by auto.
    exists (JS.newline ++ "Successfully generated 0 image(s):")%string,
           [ConsoleError "No images were generated"].
    repeat split.
  - rewrite (handle_response_entries w resp e rest Hd).
    exists (JS.newline ++ "Successfully generated "
            ++ JS.string_of_nat (length (e :: rest)) ++ " image(s):")%string,
           [ConsoleLog (JS.newline ++ "Done!")].
    repeat split.
  - rewrite handle_response_empty by auto.
    exists (JS.newline ++ "Successfully generated 0 image(s):")%string,
           [ConsoleError "No images were generated"].
    repeat split.
Qed.

Lemma console_events_local (t : list Event) :
  forallb console_event t = true -> forallb local_event t = true.
Proof.
  induction t as [| e t IH]; simpl; [reflexivity |].
  intros H. apply andb_prop in H as [He Ht]. rewrite (IH Ht).
  destruct e; try discriminate; reflexivity.
Qed.

(** The run after a fulfilled generation call: local events, the call, one
    progress line, the loop over [response.data || []], closing lines. *)
Lemma main_fulfilled (w : World) (cli : CommandLine) (req : GenerationRequest)
      (resp : ImagesResponse) :
  In (Generate req) (trace (main w cli)) ->
  images_generate w req = inl resp ->
  let entries := match data resp with Some l => l | None => [] end in
  exists before first last,
    forallb local_event before = true /\
    forallb console_event last = true /\
    trace (main w cli)
    = before ++ Generate req :: ConsoleLog first
             :: trace (download_loop w 0 entries) ++ last.
Proof.
  intros Hin Hgen entries.
  destruct (main_call_split w cli req Hin) as [before [Hloc Hmain]].
  destruct (await_generate_fulfilled w req resp Hgen)
    as [first [last [Hawait [_ [Hlast _]]]]].
  exists before, first, last. repeat split; try assumption.
  rewrite Hmain, trace_pair. fold entries in Hawait. rewrite Hawait. reflexivity.
Qed.

(** X5: after a fulfilled generation call the run fetches the usable URLs of
    the response, each once and in result order, whatever the earlier
    downloads and writes did: a failure never skips, repeats or reorders a
    later download. *)
Theorem every_url_fetched_once (w : World) (cli : CommandLine)
        (req : GenerationRequest) (resp : ImagesResponse) :
  In (Generate req) (trace (main w cli)) ->
  images_generate w req = inl resp ->
  fetched_urls (trace (main w cli))
  = urls_of (match data resp with Some l => l | None => [] end).
Proof.
  intros Hin Hgen.
  destruct (main_fulfilled w cli req resp Hin Hgen)
    as [before [first [last [Hloc [Hlast Htrace]]]]].
  destruct (local_events_no_fetch _ Hloc) as [Hb _].
  destruct (local_events_no_fetch _ (console_events_local _ Hlast)) as [Hl _].
  rewrite Htrace, fetched_urls_app, Hb.
  change (fetched_urls (Generate req :: ConsoleLog first :: ?t))
    with (fetched_urls t).
  rewrite fetched_urls_app, Hl, download_loop_fetched. simpl.
  now rewrite app_nil_r.
Qed.

(** Three entries: the second has no URL, the third cannot be fetched. *)
Lemma every_url_fetched_once_witness :
  let entries := [ {| url := Some "https://img/broken" |}; {| url := None |};
                   {| url := Some "https://img/3" |} ] in
  let w := sample_world (Some "sk-test") (Some entries) in
  let cli := {| opts := {| opt_prompt := None; opt_promptFile := None;
                           opt_size := "512x512"; opt_n := "3";
                           opt_model := "dall-e-2" |};
                args := ["A cute robot"] |} in
  fetched_urls (trace (main w cli)) = ["https://img/broken"; "https://img/3"].
Proof.
  intros entries w cli.
  apply (every_url_fetched_once w cli
           {| req_model := "dall-e-2"; req_prompt := "A cute robot";
              req_n := JS.Int 3; req_size := "512x512" |}
           {| data := Some entries |}).
  - vm_compute. tauto.
  - reflexivity.
Defined.

(** X6: after a fulfilled generation call, what the run hands to [writeFile]
    is exactly the fulfilled downloads: each one's bytes, unchanged, at the
    path built from the working directory, the clock reading of its
    iteration and its 1-based position, in result order.  Nothing is
    written for an entry without URL or with a rejected download, and a
    rejected write does not stop the writes that follow. *)
Theorem writes_are_the_downloads (w : World) (cli : CommandLine)
        (req : GenerationRequest) (resp : ImagesResponse) :
  In (Generate req) (trace (main w cli)) ->
  images_generate w req = inl resp ->
  write_calls (trace (main w cli))
  = map (fun d => (path_join w (process_cwd w)
                             (filename (date_now w (fst d)) (fst d + 1)),
                   snd d))
        (downloads w 0 (match data resp with Some l => l | None => [] end)).
Proof.
  intros Hin Hgen.
  destruct (main_fulfilled w cli req resp Hin Hgen)
    as [before [first [last [Hloc [Hlast Htrace]]]]].
  destruct (local_events_no_fetch _ Hloc) as [_ Hb].
  destruct (local_events_no_fetch _ (console_events_local _ Hlast)) as [_ Hl].
  rewrite Htrace, write_calls_app, Hb.
  change (write_calls (Generate req :: ConsoleLog first :: ?t))
    with (write_calls t).
  rewrite write_calls_app, Hl, download_loop_write_calls. simpl.
  now rewrite app_nil_r.
Qed.

(** Two downloads arrive; the first write is rejected, the second is still
    made. *)
Lemma writes_are_the_downloads_witness :
  let entries := [ {| url := Some "https://img/1" |}; {| url := None |};
                   {| url := Some "https://img/3" |} ] in
  let w := {| env_OPENAI_API_KEY := Some "sk-test";
              fs_readFile := fun _ => Rejected "ENOENT";
              images_generate := fun _ => inl {| data := Some entries |};
              fetch_arrayBuffer := fun i _ =>
                Fulfilled (repeat Byte.x2a (S i));
              date_now := fun i => (1700000000000 + N.of_nat i)%N;
              process_cwd := "/work";
              path_join := fun a b => (a ++ "/" ++ b)%string;
              fs_writeFile := fun i _ _ =>
                match i with 0 => Rejected "EACCES" | _ => Fulfilled tt end |} in
  let cli := {| opts := {| opt_prompt := None; opt_promptFile := None;
                           opt_size := "512x512"; opt_n := "3";
                           opt_model := "dall-e-2" |};
                args := ["A cute robot"] |} in
  write_calls (trace (main w cli))
  = [("/work/generated_image_1700000000000_1.png", [Byte.x2a]);
     ("/work/generated_image_1700000000002_3.png", [Byte.x2a; Byte.x2a; Byte.x2a])].
Proof.
  intros entries w cli.
  rewrite (writes_are_the_downloads w cli
             {| req_model := "dall-e-2"; req_prompt := "A cute robot";
                req_n := JS.Int 3; req_size := "512x512" |}
             {| data := Some entries |}).
  - reflexivity.
  - vm_compute. tauto.
  - reflexivity.
Defined.

Lemma prefix_outcome_lines (w : World) (cli : CommandLine) (read : list Event)
      (thePrompt : string) (n' : JS.Number) :
  read_only w read ->
  error_lines
    (read ++ trace (apply_model_policy (params_of cli (Some thePrompt)))
          ++ trace (announce (params_of cli (Some thePrompt)) n' thePrompt))
  = [] /\
  saved_lines
    (read ++ trace (apply_model_policy (params_of cli (Some thePrompt)))
          ++ trace (announce (params_of cli (Some thePrompt)) n' thePrompt))
  = [].
Proof.
  intros Hr. rewrite !error_lines_app, !saved_lines_app.
  assert (Hread : error_lines read = [] /\ saved_lines read = []).
  { destruct Hr as [-> | [f [c [-> _]]]]; split; reflexivity. }
  destruct Hread as [-> ->].
  unfold apply_model_policy.
  destruct (includes single_image_models (model (params_of cli (Some thePrompt)))
            && JS.gt (n (params_of cli (Some thePrompt))) (JS.Int 1))%bool;
    split; reflexivity.
Qed.

(** X7: after a generation call fulfilled with at least one entry, every
    entry is accounted for by exactly one line: the error lines and the
    "Saved to: ..." lines of the run together number as many as the entries
    returned. *)
Theorem every_entry_accounted_for (w : World) (cli : CommandLine)
        (req : GenerationRequest) (resp : ImagesResponse) (entries : list Image) :
  In (Generate req) (trace (main w cli)) ->
  images_generate w req = inl resp ->
  data resp = Some entries ->
  entries <> [] ->
  length (error_lines (trace (main w cli)))
  + length (saved_lines (trace (main w cli)))
  = length entries.
Proof.
  intros Hin Hgen Hdata Hne.
  destruct (main_reaches_call w cli req Hin) as [read [Hr [_ [_ [_ Hmain]]]]].
  destruct (prefix_outcome_lines w cli read (req_prompt req) (req_n req) Hr)
    as [He Hs].
  destruct entries as [| e rest]; [contradiction |].
  rewrite Hmain, trace_pair.
  rewrite !app_assoc, <- !app_assoc in *.
  rewrite (app_assoc read), (app_assoc (read ++ _)).
  rewrite error_lines_app, saved_lines_app.
  rewrite <- !app_assoc, He, Hs.
  unfold await_generate. rewrite Hgen.
  rewrite (handle_response_entries w resp e rest Hdata), trace_pair.
  change (error_lines (Generate req :: ConsoleLog ?s :: ?t))
    with (error_lines t).
  match goal with
  | |- context [saved_lines (Generate req :: ConsoleLog ?s :: ?t)] =>
      change (saved_lines (Generate req :: ConsoleLog s :: t))
        with (saved_lines t)
  end.
  rewrite error_lines_app, saved_lines_app, !length_app.
  pose proof (download_loop_outcomes w (e :: rest) 0) as Hloop.
  simpl length in *. lia.
Qed.

(** Three entries: one saved, one without URL, one that cannot be
    fetched. *)
Lemma every_entry_accounted_for_witness :
  let entries := [ {| url := Some "https://img/1" |}; {| url := None |};
                   {| url := Some "https://img/broken" |} ] in
  let w := sample_world (Some "sk-test") (Some entries) in
  let cli := {| opts := {| opt_prompt := None; opt_promptFile := None;
                           opt_size := "512x512"; opt_n := "3";
                           opt_model := "dall-e-2" |};
                args := ["A cute robot"] |} in
  error_lines (trace (main w cli))
  = ["Image 2: No URL returned"; "Failed to download image 3: fetch failed"] /\
  saved_lines (trace (main w cli))
  = ["Saved to: /work/generated_image_1700000000000_1.png"] /\
  length (error_lines (trace (main w cli)))
  + length (saved_lines (trace (main w cli))) = 3.
Proof.
  intros entries w cli. split; [reflexivity |]. split; [reflexivity |].
  apply (every_entry_accounted_for w cli
           {| req_model := "dall-e-2"; req_prompt := "A cute robot";
              req_n := JS.Int 3; req_size := "512x512" |}
           {| data := Some entries |} entries).
  - vm_compute. tauto.
  - reflexivity.
  - reflexivity.
  - discriminate.
Defined.

(** ** From the command line to the request *)

(** X8: with the credential set, whenever [parseArgs] resolves a non-empty
    prompt the run makes exactly one generation call, and its request
    carries that prompt, the [--model] and [--size] values verbatim (neither
    is checked against any list of models or sizes) and the count after the
    single-image policy. *)
Theorem resolved_request_is_sent (w : World) (cli : CommandLine)
        (read : list Event) (params : Params) (thePrompt : string) :
  JS.truthy (env_OPENAI_API_KEY w) = true ->
  parseArgs w cli = (read, Done params) ->
  prompt params = Some thePrompt ->
  thePrompt <> "" ->
  generation_requests (trace (main w cli))
  = [ {| req_model := opt_model (opts cli);
         req_prompt := thePrompt;
         req_n := effective_count (opt_model (opts cli))
                                  (JS.parseInt10 (opt_n (opts cli)));
         req_size := opt_size (opts cli) |} ].
Proof.
  intros Hk Hparse Hp Hne.
  apply (main_single_call w cli (request_of cli thePrompt)).
  exact (main_calls_provider w cli read params thePrompt Hk Hparse Hp Hne).
Qed.

(** A model and a size the provider does not know are sent as given. *)
Lemma resolved_request_is_sent_witness :
  let w := sample_world (Some "sk-test") (Some []) in
  let cli := {| opts := {| opt_prompt := Some "ignored";
                           opt_promptFile := None;
                           opt_size := "7x7"; opt_n := "2";
                           opt_model := "no-such-model" |};
                args := ["  A sunset "] |} in
  generation_requests (trace (main w cli))
  = [ {| req_model := "no-such-model"; req_prompt := "  A sunset ";
         req_n := JS.Int 2; req_size := "7x7" |} ].
Proof.
  intros w cli.
  apply (resolved_request_is_sent w cli [] (params_of cli (Some "  A sunset "))
           "  A sunset ");
    [reflexivity | reflexivity | reflexivity | discriminate].
Defined.

Lemma download_events_no_warning (t : list Event) :
  forallb download_event t = true -> warning_lines t = [].
Proof.
  induction t as [| e t IH]; simpl; [reflexivity |].
  intros H. apply andb_prop in H as [He Ht].
  destruct e; try discriminate; simpl; auto.
Qed.

Lemma in_warning_lines (t : list Event) (s : string) :
  In (ConsoleWarn s) t <-> In s (warning_lines t).
Proof.
  unfold warning_lines. rewrite in_flat_map. split.
  - intros H. exists (ConsoleWarn s). split; [assumption | now left].
  - intros [e [He Hs]]. destruct e; simpl in Hs; try contradiction.
    destruct Hs as [-> | []]. assumption.
Qed.

(** The warnings of a whole run are those of the policy step of a run that
    reaches the provider. *)
Lemma main_warning_lines (w : World) (cli : CommandLine) :
  warning_lines (trace (main w cli)) = []
  \/ exists thePrompt,
       In (Generate (request_of cli thePrompt)) (trace (main w cli)) /\
       warning_lines (trace (main w cli))
       = warning_lines (trace (apply_model_policy (params_of cli (Some thePrompt)))).
Proof.
  assert (Hread : forall read, read_only w read -> warning_lines read = []).
  { intros read [-> | [f [c [-> _]]]]; reflexivity. }
  destruct (main_cases w cli) as [f msg Hf | read Hk Hr | read Hk Hr
                                 | read thePrompt Hk Hne Hr].
  - now left.
  - left. rewrite trace_pair, warning_lines_app, (Hread read Hr). reflexivity.
  - left. rewrite trace_pair, warning_lines_app, (Hread read Hr). reflexivity.
  - right. exists thePrompt. rewrite !trace_pair. split.
    + apply in_or_app. right. apply in_or_app. right. apply in_or_app. right.
      now left.
    + rewrite !warning_lines_app, (Hread read Hr).
      change (warning_lines (Generate ?r :: ?t)) with (warning_lines t).
      rewrite (download_events_no_warning _
                 (await_generate_events w (request_of cli thePrompt))).
      simpl. now rewrite app_nil_r.
Qed.

(** X9: a warning is never printed for nothing.  Any line a run prints with
    [console.warn] is the single-image warning for the model of the command
    line, that model is one of dall-e-3, gpt-image and gpt-image-mini, the
    count read from [--n] exceeds 1, and the run goes on to call the provider
    with a count of 1. *)
Theorem warning_only_when_clamped (w : World) (cli : CommandLine) (line : string) :
  In (ConsoleWarn line) (trace (main w cli)) ->
  let m := opt_model (opts cli) in
  line = ("Warning: " ++ m ++ " only supports n=1. Setting n to 1.")%string /\
  In m ["dall-e-3"; "gpt-image"; "gpt-image-mini"] /\
  (exists k, JS.parseInt10 (opt_n (opts cli)) = JS.Int k /\ (1 < k)%Z) /\
  exists req, In (Generate req) (trace (main w cli)) /\ req_n req = JS.Int 1.
Proof.
  intros Hin m. apply in_warning_lines in Hin.
  destruct (main_warning_lines w cli) as [Hnone | [thePrompt [Hcall Hw]]].
  - rewrite Hnone in Hin. contradiction.
  - rewrite Hw in Hin. unfold apply_model_policy, params_of in Hin.
    cbn [model n] in Hin. fold m in Hin.
    destruct (includes single_image_models m) eqn:Hm; cbn [andb] in Hin;
      [| contradiction].
    destruct (JS.gt (JS.parseInt10 (opt_n (opts cli))) (JS.Int 1)) eqn:Hgt;
      [| contradiction].
    destruct Hin as [<- | []].
    split; [reflexivity |].
    split; [now apply (includes_spec single_image_models) |].
    split; [now apply gt_one_spec |].
    exists (request_of cli thePrompt). split; [exact Hcall |].
    unfold request_of, effective_count. cbn [req_n]. fold m.
    rewrite Hm, Hgt. reflexivity.
Qed.

(** [--n 4] with dall-e-3. *)
Lemma warning_only_when_clamped_witness :
  let w := sample_world (Some "sk-test") (Some [ {| url := Some "https://img/1" |} ]) in
  let cli := {| opts := {| opt_prompt := None; opt_promptFile := None;
                           opt_size := "1024x1024"; opt_n := "4";
                           opt_model := "dall-e-3" |};
                args := ["A sunset"] |} in
  In (ConsoleWarn "Warning: dall-e-3 only supports n=1. Setting n to 1.")
     (trace (main w cli)) /\
  exists req, In (Generate req) (trace (main w cli)) /\ req_n req = JS.Int 1.
Proof.
  intros w cli.
  assert (Hin : In (ConsoleWarn "Warning: dall-e-3 only supports n=1. Setting n to 1.")
                   (trace (main w cli))).
  { vm_compute. tauto. }
  split; [exact Hin |].
  exact (proj2 (proj2 (proj2 (warning_only_when_clamped w cli _ Hin)))).
Defined.

(** X10: a count that does not exceed 1 is never touched, for any model: when
    [parseInt] reads 1, 0, a negative integer or [NaN] from [--n], that very
    value is sent to the provider, and the run prints no warning. *)
Theorem small_count_is_sent_as_parsed (w : World) (cli : CommandLine)
        (req : GenerationRequest) :
  In (Generate req) (trace (main w cli)) ->
  let requested := JS.parseInt10 (opt_n (opts cli)) in
  requested = JS.NaN \/ (exists k, requested = JS.Int k /\ (k <= 1)%Z) ->
  req_n req = requested /\ warning_lines (trace (main w cli)) = [].
Proof.
  intros Hin requested Hsmall.
  assert (Hgt : JS.gt requested (JS.Int 1) = false).
  { destruct Hsmall as [-> | [k [-> Hk]]]; [reflexivity |].
    simpl. apply Z.ltb_ge. exact Hk. }
  destruct (main_reaches_call w cli req Hin) as [_ [_ [_ [_ [Hreq _]]]]].
  split.
  - rewrite Hreq. unfold request_of, effective_count. cbn [req_n].
    fold requested. rewrite Hgt, andb_false_r. reflexivity.
  - destruct (main_warning_lines w cli) as [Hnone | [thePrompt [_ Hw]]];
      [exact Hnone |].
    rewrite Hw. unfold apply_model_policy, params_of. cbn [model n].
    fold requested. rewrite Hgt, andb_false_r. reflexivity.
Qed.

(** [--n abc] with dall-e-3: the provider is asked for NaN images. *)
Lemma small_count_is_sent_as_parsed_witness :
  let w := sample_world (Some "sk-test") (Some [ {| url := Some "https://img/1" |} ]) in
  let cli := {| opts := {| opt_prompt := None; opt_promptFile := None;
                           opt_size := "1024x1024"; opt_n := "abc";
                           opt_model := "dall-e-3" |};
                args := ["A sunset"] |} in
  let req := {| req_model := "dall-e-3"; req_prompt := "A sunset";
                req_n := JS.NaN; req_size := "1024x1024" |} in
  In (Generate req) (trace (main w cli)) /\
  warning_lines (trace (main w cli)) = [].
Proof.
  intros w cli req.
  assert (Hin : In (Generate req) (trace (main w cli))).
  { vm_compute. tauto. }
  split; [exact Hin |].
  exact (proj2 (small_count_is_sent_as_parsed w cli req Hin (or_introl eq_refl))).
Defined.

(** ** The prompt read from a file is trimmed *)

Lemma trimStart_list (s : string) :
  list_ascii_of_string (JS.trimStart s)
  = drop_whitespace (list_ascii_of_string s).
Proof.
  induction s as [| c s IH]; simpl; [reflexivity |].
  destruct (JS.is_whitespace c); [exact IH | reflexivity].
Qed.

Lemma reverse_list (s : string) :
  list_ascii_of_string (JS.reverse s) = rev (list_ascii_of_string s).
Proof. unfold JS.reverse. apply list_ascii_of_string_of_list_ascii. Qed.

Lemma trim_list (s : string) :
  list_ascii_of_string (JS.trim s)
  = rev (drop_whitespace (rev (drop_whitespace (list_ascii_of_string s)))).
Proof.
  unfold JS.trim, JS.trimEnd.
  now rewrite reverse_list, trimStart_list, reverse_list, trimStart_list.
Qed.

Lemma drop_whitespace_head (l : list ascii) :
  match drop_whitespace l with
  | c :: _ => JS.is_whitespace c = false
  | [] => True
  end.
Proof.
  induction l as [| c l IH]; simpl; [exact I |].
  destruct (JS.is_whitespace c) eqn:Hc; [exact IH | exact Hc].
Qed.

Lemma drop_whitespace_snoc (l : list ascii) (c : ascii) :
  JS.is_whitespace c = false ->
  drop_whitespace (l ++ [c]) = drop_whitespace l ++ [c].
Proof.
  intros Hc. induction l as [| a l IH]; simpl.
  - now rewrite Hc.
  - destruct (JS.is_whitespace a); [exact IH | reflexivity].
Qed.

(** A list is trimmed when neither end is white space. *)
Lemma trimmed_list (l : list ascii) :
  let t := rev (drop_whitespace (rev (drop_whitespace l))) in
  match t with c :: _ => JS.is_whitespace c = false | [] => True end /\
  match rev t with c :: _ => JS.is_whitespace c = false | [] => True end.
Proof.
  intros t. subst t.
  pose proof (drop_whitespace_head l) as Hhead.
  destruct (drop_whitespace l) as [| c r]; [split; exact I |].
  split.
  - simpl rev at 2. rewrite (drop_whitespace_snoc _ c Hhead).
    rewrite rev_app_distr. exact Hhead.
  - rewrite rev_involutive. apply drop_whitespace_head.
Qed.

Lemma drop_whitespace_fixed (l : list ascii) :
  match l with c :: _ => JS.is_whitespace c = false | [] => True end ->
  drop_whitespace l = l.
Proof. destruct l as [| c r]; simpl; [reflexivity | now intros ->]. Qed.

Lemma first_char_list (s : string) :
  first_char s = hd_error (list_ascii_of_string s).
Proof. destruct s; reflexivity. Qed.

Lemma list_ascii_of_string_inj (s t : string) :
  list_ascii_of_string s = list_ascii_of_string t -> s = t.
Proof.
  intros H. rewrite <- (string_of_list_ascii_of_string s),
    <- (string_of_list_ascii_of_string t). now rewrite H.
Qed.

(** [trim] leaves no white space at either end, and trimming again changes
    nothing. *)
Lemma trim_is_trimmed (s : string) :
  is_ws_opt (first_char (JS.trim s)) = false /\
  is_ws_opt (last_char (JS.trim s)) = false /\
  JS.trim (JS.trim s) = JS.trim s.
Proof.
  pose proof (trimmed_list (list_ascii_of_string s)) as [Hfirst Hlast].
  cbv zeta in Hfirst, Hlast. rewrite <- trim_list in Hfirst, Hlast.
  split; [| split].
  - rewrite first_char_list.
    destruct (list_ascii_of_string (JS.trim s)); [reflexivity | exact Hfirst].
  - unfold last_char. rewrite first_char_list, reverse_list.
    destruct (rev (list_ascii_of_string (JS.trim s))); [reflexivity | exact Hlast].
  - apply list_ascii_of_string_inj. rewrite (trim_list (JS.trim s)).
    rewrite (drop_whitespace_fixed _ Hfirst), (drop_whitespace_fixed _ Hlast).
    apply rev_involutive.
Qed.

(** X11: a prompt that [parseArgs] takes from a file is the trimmed
    contents of that file: it neither begins nor ends with white space
    (TAB, LF, VT, FF, CR, SP, NBSP), and trimming it again changes nothing. *)
Theorem file_prompt_is_trimmed (w : World) (cli : CommandLine) (file : string)
        (params : Params) :
  parseArgs w cli = ([ReadFile file], Done params) ->
  exists contents thePrompt,
    fs_readFile w file = Fulfilled contents /\
    prompt params = Some thePrompt /\
    thePrompt = JS.trim contents /\
    is_ws_opt (first_char thePrompt) = false /\
    is_ws_opt (last_char thePrompt) = false /\
    JS.trim thePrompt = thePrompt.
Proof.
  intros Hparse.
  pose proof (parseArgs_cases w cli) as Hc. rewrite Hparse in Hc.
  inversion Hc as [| f contents Hread |]; subst.
  exists contents, (JS.trim contents).
  destruct (trim_is_trimmed contents) as [H1 [H2 H3]].
  repeat split; assumption.
Qed.

(** A prompt file with white space on both sides of the text. *)
Lemma file_prompt_is_trimmed_witness :
  let w := sample_world None None in
  let cli := {| opts := {| opt_prompt := None;
                           opt_promptFile := Some "prompt.txt";
                           opt_size := "1024x1024"; opt_n := "1";
                           opt_model := "dall-e-3" |};
                args := [] |} in
  exists contents thePrompt,
    fs_readFile w "prompt.txt" = Fulfilled contents /\
    prompt (params_of cli (Some "a cat")) = Some thePrompt /\
    thePrompt = JS.trim contents /\
    is_ws_opt (first_char thePrompt) = false /\
    is_ws_opt (last_char thePrompt) = false /\
    JS.trim thePrompt = thePrompt.
Proof.
  intros w cli.
  exact (file_prompt_is_trimmed w cli "prompt.txt" (params_of cli (Some "a cat"))
           eq_refl).
Defined.

(** ** The count option *)









(** * The hand-written parser of the earlier command line *)

Lemma legacy_set_prompt_same (params : Params) :
  Legacy.set_prompt params (prompt params) = params.
Proof. destruct params; reflexivity. Qed.

(** A plain argument becomes the prompt when none is set (or the one set is
    empty) and is dropped otherwise. *)
Lemma legacy_plain_step (params : Params) (arg : string) (rest : list string) :
  Legacy.is_option_name arg = false ->
  Legacy.parse_loop params (arg :: rest)
  = Legacy.parse_loop
      (Legacy.set_prompt params
         (if JS.truthy (prompt params) then prompt params else Some arg))
      rest.
Proof.
  unfold Legacy.is_option_name. intros H.
  repeat (apply orb_false_elim in H as [H ?]).
  cbn [Legacy.parse_loop].
  repeat match goal with
         | E : String.eqb arg _ = false |- _ => rewrite E; clear E
         end.
  cbn [orb].
  destruct (JS.truthy (prompt params)); cbn [negb];
    rewrite ?legacy_set_prompt_same; destruct rest; reflexivity.
Qed.

Lemma legacy_plain_prefix (pre rest : list string) :
  Legacy.plain pre = true ->
  forall params,
    Legacy.parse_loop params (pre ++ rest)
    = Legacy.parse_loop
        (Legacy.set_prompt params (Legacy.absorb (prompt params) pre)) rest.
Proof.
  induction pre as [| a pre IH]; intros Hplain params.
  - simpl. now rewrite legacy_set_prompt_same.
  - simpl in Hplain. apply andb_prop in Hplain as [Ha Hpre].
    apply negb_true_iff in Ha.
    rewrite <- app_comm_cons, (legacy_plain_step params a _ Ha), (IH Hpre).
    reflexivity.
Qed.

(** A help flag is honoured wherever the loop meets it as an argument. *)
Lemma legacy_help_step (params : Params) (h : string) (rest : list string) :
  h = "--help" \/ h = "-h" ->
  Legacy.parse_loop params (h :: rest)
  = ([ConsoleLog (String.concat JS.newline Legacy.usage_lines)], Exited 0).
Proof. intros [-> | ->]; destruct rest; reflexivity. Qed.

Lemma legacy_parse_loop_outcomes (fuel : nat) :
  forall (args : list string) (params : Params),
    length args <= fuel ->
    (exists p, Legacy.parse_loop params args = ([], Done p))
    \/ (Legacy.parse_loop params args
        = ([ConsoleLog (String.concat JS.newline Legacy.usage_lines)], Exited 0)
        /\ (In "--help" args \/ In "-h" args)).
Proof.
  induction fuel as [| fuel IH]; intros args params Hlen.
  - destruct args; [| simpl in Hlen; lia]. left. now exists params.
  - destruct args as [| arg rest]; [left; now exists params |].
    simpl in Hlen.
    assert (Hrest : forall p,
               (exists p', Legacy.parse_loop p rest = ([], Done p'))
               \/ (Legacy.parse_loop p rest
                   = ([ConsoleLog (String.concat JS.newline Legacy.usage_lines)],
                      Exited 0)
                   /\ (In "--help" (arg :: rest) \/ In "-h" (arg :: rest)))).
    { intros p. destruct (IH rest p ltac:(lia)) as [H | [H Hin]]; [now left |].
      right. split; [exact H |]. simpl. tauto. }
    assert (Hother :
             (exists p, (if (String.eqb arg "--help" || String.eqb arg "-h")%bool
                         then Legacy.printHelp ;; process_exit 0
                         else if negb (JS.truthy (prompt params))
                              then Legacy.parse_loop
                                     (Legacy.set_prompt params (Some arg)) rest
                              else Legacy.parse_loop params rest)
                        = ([], Done p))
             \/ ((if (String.eqb arg "--help" || String.eqb arg "-h")%bool
                  then Legacy.printHelp ;; process_exit 0
                  else if negb (JS.truthy (prompt params))
                       then Legacy.parse_loop
                              (Legacy.set_prompt params (Some arg)) rest
                       else Legacy.parse_loop params rest)
                 = ([ConsoleLog (String.concat JS.newline Legacy.usage_lines)],
                    Exited 0)
                 /\ (In "--help" (arg :: rest) \/ In "-h" (arg :: rest)))).
    { destruct (String.eqb_spec arg "--help") as [-> | Hh].
      - right. split; [reflexivity | left; now left].
      - destruct (String.eqb_spec arg "-h") as [-> | Hh'].
        + right. split; [reflexivity | right; now left].
        + cbn [orb]. destruct (negb (JS.truthy (prompt params))); apply Hrest. }
    cbn [Legacy.parse_loop].
    destruct rest as [| value rest']; [exact Hother |].
    assert (Hrest' : forall p,
               (exists p', Legacy.parse_loop p rest' = ([], Done p'))
               \/ (Legacy.parse_loop p rest'
                   = ([ConsoleLog (String.concat JS.newline Legacy.usage_lines)],
                      Exited 0)
                   /\ (In "--help" (arg :: value :: rest')
                       \/ In "-h" (arg :: value :: rest')))).
    { intros p. simpl in Hlen.
      destruct (IH rest' p ltac:(lia)) as [H | [H Hin]]; [now left |].
      right. split; [exact H |]. simpl. tauto. }
    destruct (String.eqb arg "--prompt"); [apply Hrest' |].
    destruct (String.eqb arg "--size"); [apply Hrest' |].
    destruct (String.eqb arg "--n"); [apply Hrest' |].
    destruct (String.eqb arg "--model"); [apply Hrest' |].
    exact Hother.
Qed.

(** X13: the hand-written parser prints nothing and returns the parameters,
    unless it prints the usage and exits with status 0; it does the latter
    only when [--help] or [-h] is among the arguments, and it never exits
    with another status. *)
Theorem legacy_parser_outcomes (argv : list string) :
  (exists params, Legacy.parseArgs argv = ([], Done params))
  \/ (Legacy.parseArgs argv
      = ([ConsoleLog (String.concat JS.newline Legacy.usage_lines)], Exited 0)
      /\ (In "--help" argv \/ In "-h" argv)).
Proof.
  apply (legacy_parse_loop_outcomes (length argv)). lia.
Qed.

(** X14: a help flag that follows plain arguments only ends the run on the
    spot: the usage is printed and the process exits with status 0, whatever
    follows the flag, with or without credential, and nothing else is
    printed, read, sent or written. *)
Theorem legacy_help_ends_the_run (w : World) (pre post : list string) (h : string) :
  Legacy.plain pre = true ->
  h = "--help" \/ h = "-h" ->
  Legacy.main w (pre ++ h :: post)
  = ([ConsoleLog (String.concat JS.newline Legacy.usage_lines)], Exited 0).
Proof.
  intros Hplain Hh. unfold Legacy.main, Legacy.parseArgs.
  rewrite (legacy_plain_prefix pre (h :: post) Hplain).
  rewrite (legacy_help_step _ h post Hh). reflexivity.
Qed.

(** [openai-image "A sunset" -h --n 3] without credential. *)
Lemma legacy_help_ends_the_run_witness :
  exit_code (Legacy.main (sample_world None None) ["A sunset"; "-h"; "--n"; "3"])
  = 0%Z /\
  network_calls (trace (Legacy.main (sample_world None None)
                                    ["A sunset"; "-h"; "--n"; "3"])) = [].
Proof.
  pose proof (legacy_help_ends_the_run (sample_world None None)
                ["A sunset"] ["--n"; "3"] "-h" eq_refl (or_intror eq_refl)) as H.
  cbn [app] in H. rewrite H. split; reflexivity.
Defined.

Lemma legacy_absorb_app (current : option string) (l1 l2 : list string) :
  Legacy.absorb current (l1 ++ l2)
  = Legacy.absorb (Legacy.absorb current l1) l2.
Proof.
  revert current. induction l1 as [| a l1 IH]; intros current; simpl;
    [reflexivity | apply IH].
Qed.

Lemma legacy_absorb_truthy (current : option string) (l : list string) :
  JS.truthy current = true -> Legacy.absorb current l = current.
Proof.
  intros H. induction l as [| a l IH]; simpl; [reflexivity |].
  now rewrite H.
Qed.

Lemma legacy_absorb_empties (l : list string) :
  Forall (eq "") l ->
  forall current,
    JS.truthy current = false -> JS.truthy (Legacy.absorb current l) = false.
Proof.
  induction 1 as [| a l Ha Hl IH]; intros current Hc; simpl; [exact Hc |].
  rewrite Hc. apply IH. now subst a.
Qed.

Lemma legacy_plain_only (argv : list string) :
  Legacy.plain argv = true ->
  Legacy.parseArgs argv
  = ([], Done (Legacy.set_prompt Legacy.initial_params
                                 (Legacy.absorb None argv))).
Proof.
  intros Hplain. unfold Legacy.parseArgs.
  rewrite <- (app_nil_r argv) at 1.
  rewrite (legacy_plain_prefix argv [] Hplain). reflexivity.
Qed.

(** X15: among plain arguments the prompt is the first non-empty one: empty
    arguments before it are skipped, every argument after it is ignored
    without a word, and size, count and model keep their defaults. *)
Theorem legacy_first_positional_wins (pre post : list string) (x : string) :
  Legacy.plain (pre ++ x :: post) = true ->
  Forall (eq "") pre ->
  x <> "" ->
  Legacy.parseArgs (pre ++ x :: post)
  = ([], Done {| prompt := Some x; size := "1024x1024";
                 n := JS.Int 1; model := "dall-e-3" |}).
Proof.
  intros Hplain Hpre Hx. rewrite (legacy_plain_only _ Hplain).
  rewrite legacy_absorb_app. simpl Legacy.absorb at 1.
  rewrite (legacy_absorb_empties pre Hpre None eq_refl).
  rewrite legacy_absorb_truthy; [reflexivity |].
  destruct x; [contradiction | reflexivity].
Qed.

(** An empty argument, then two prompts. *)
Lemma legacy_first_positional_wins_witness :
  Legacy.parseArgs [""; "A sunset"; "A cat"]
  = ([], Done {| prompt := Some "A sunset"; size := "1024x1024";
                 n := JS.Int 1; model := "dall-e-3" |}).
Proof.
  apply (legacy_first_positional_wins [""] ["A cat"] "A sunset");
    [reflexivity | repeat constructor | discriminate].
Defined.

(** X16: in the hand-written parser a non-empty [--prompt] value wins over
    plain arguments on either side of it (the commander version resolves
    the other way round), and the argument after [--prompt] is taken as its
    value whatever it is, an option name or a help flag included. *)
Theorem legacy_flag_beats_positionals (pre post : list string) (value : string) :
  Legacy.plain pre = true ->
  Legacy.plain post = true ->
  value <> "" ->
  Legacy.parseArgs (pre ++ "--prompt" :: value :: post)
  = ([], Done {| prompt := Some value; size := "1024x1024";
                 n := JS.Int 1; model := "dall-e-3" |}).
Proof.
  intros Hpre Hpost Hv. unfold Legacy.parseArgs.
  rewrite (legacy_plain_prefix pre _ Hpre).
  change (Legacy.parse_loop ?p ("--prompt" :: value :: post))
    with (Legacy.parse_loop (Legacy.set_prompt p (Some value)) post).
  rewrite <- (app_nil_r post) at 1.
  rewrite (legacy_plain_prefix post [] Hpost).
  cbn [Legacy.parse_loop Legacy.set_prompt prompt size n model
       Legacy.initial_params ret].
  rewrite (legacy_absorb_truthy (Some value) post); [reflexivity |].
  destruct value; [contradiction | reflexivity].
Qed.

(** A positional before, [--prompt --help], a positional after. *)
Lemma legacy_flag_beats_positionals_witness :
  Legacy.parseArgs ["A sunset"; "--prompt"; "--help"; "A cat"]
  = ([], Done {| prompt := Some "--help"; size := "1024x1024";
                 n := JS.Int 1; model := "dall-e-3" |}).
Proof.
  apply (legacy_flag_beats_positionals ["A sunset"] ["A cat"] "--help");
    [reflexivity | reflexivity | discriminate].
Defined.

Lemma generateImages_requests (w : World) (params : Params) (c : ascii) (s : string) :
  JS.truthy (env_OPENAI_API_KEY w) = true ->
  prompt params = Some (String c s) ->
  generation_requests (trace (generateImages w params))
  = [ {| req_model := model params; req_prompt := String c s;
         req_n := effective_count (model params) (n params);
         req_size := size params |} ].
Proof.
  intros Hk Hp. rewrite (generateImages_call w params c s Hk Hp), trace_pair.
  rewrite !generation_requests_app.
  destruct (local_events_quiet _ (apply_model_policy_local params)) as [-> _].
  destruct (local_events_quiet _ (announce_local params
              (effective_count (model params) (n params)) (String c s)))
    as [-> _].
  change (generation_requests (Generate ?r :: ?t))
    with (r :: generation_requests t).
  now rewrite (download_events_no_generate _ (await_generate_events w _)).
Qed.

Lemma legacy_takes_value_cases (f : string) :
  Legacy.takes_value f = true ->
  f = "--prompt" \/ f = "--size" \/ f = "--n" \/ f = "--model".
Proof.
  unfold Legacy.takes_value. intros H.
  repeat (apply orb_prop in H as [H | H]);
    apply String.eqb_eq in H; tauto.
Qed.

(** X17: an option name given last, with no value after it, is not an
    error: when no non-empty prompt was read before it, the name itself
    becomes the prompt, and with the credential set it is sent to the
    provider as the prompt of the one generation call. *)
Theorem legacy_dangling_option_is_the_prompt
        (w : World) (pre : list string) (f : string) :
  Legacy.plain pre = true ->
  Forall (eq "") pre ->
  Legacy.takes_value f = true ->
  Legacy.parseArgs (pre ++ [f])
  = ([], Done {| prompt := Some f; size := "1024x1024";
                 n := JS.Int 1; model := "dall-e-3" |}) /\
  (JS.truthy (env_OPENAI_API_KEY w) = true ->
   generation_requests (trace (Legacy.main w (pre ++ [f])))
   = [ {| req_model := "dall-e-3"; req_prompt := f;
          req_n := JS.Int 1; req_size := "1024x1024" |} ]).
Proof.
  intros Hplain Hpre Hf.
  assert (Hparse : Legacy.parseArgs (pre ++ [f])
                   = ([], Done {| prompt := Some f; size := "1024x1024";
                                  n := JS.Int 1; model := "dall-e-3" |})).
  { unfold Legacy.parseArgs. rewrite (legacy_plain_prefix pre [f] Hplain).
    pose proof (legacy_absorb_empties pre Hpre None eq_refl) as Hfalsy.
    cbn [prompt Legacy.initial_params] in *.
    apply legacy_takes_value_cases in Hf.
    destruct Hf as [-> | [-> | [-> | ->]]];
      cbn [Legacy.parse_loop String.eqb Ascii.eqb Bool.eqb orb
           Legacy.set_prompt prompt];
      rewrite Hfalsy; reflexivity. }
  split; [exact Hparse |].
  intros Hk. unfold Legacy.main. rewrite Hparse.
  change (bind ([], Done ?a) ?k) with (bind (ret a) k). rewrite bind_ret.
  apply legacy_takes_value_cases in Hf.
  destruct Hf as [-> | [-> | [-> | ->]]];
    (erewrite generateImages_requests; [reflexivity | exact Hk | reflexivity]).
Qed.

(** [openai-image --size], with the credential set. *)
Lemma legacy_dangling_option_is_the_prompt_witness :
  generation_requests
    (trace (Legacy.main (sample_world (Some "sk-test") None) ["--size"]))
  = [ {| req_model := "dall-e-3"; req_prompt := "--size";
         req_n := JS.Int 1; req_size := "1024x1024" |} ].
Proof.
  exact (proj2 (legacy_dangling_option_is_the_prompt
                  (sample_world (Some "sk-test") None) [] "--size"
                  eq_refl (Forall_nil _) eq_refl) eq_refl).
Defined.

(** * The first version of [generateImages] *)

Lemma first_version_item (w : World) (i : nat) (imageData : Image) :
  snd (FirstVersion.download_item w i imageData) = Done tt /\
  fetched_urls (trace (FirstVersion.download_item w i imageData))
  = [FirstVersion.url_text imageData] /\
  generation_requests (trace (FirstVersion.download_item w i imageData)) = [] /\
  warning_lines (trace (FirstVersion.download_item w i imageData)) = [].
Proof.
  unfold FirstVersion.download_item.
  destruct (fetch_arrayBuffer w i (FirstVersion.url_text imageData))
    as [buffer | msg]; [| repeat split].
  cbn. destruct (fs_writeFile w i _ buffer) as [[] | msg]; repeat split.
Qed.

Lemma first_version_loop_cons (w : World) (i : nat) (imageData : Image)
      (rest : list Image) :
  FirstVersion.download_loop w i (imageData :: rest)
  = (trace (FirstVersion.download_item w i imageData)
     ++ trace (FirstVersion.download_loop w (S i) rest),
     snd (FirstVersion.download_loop w (S i) rest)).
Proof.
  simpl. destruct (first_version_item w i imageData) as [Hd _].
  destruct (FirstVersion.download_item w i imageData) as [t o].
  simpl in Hd. subst o. rewrite bind_done. reflexivity.
Qed.

Lemma first_version_loop (w : World) (entries : list Image) :
  forall i,
    snd (FirstVersion.download_loop w i entries) = Done tt /\
    fetched_urls (trace (FirstVersion.download_loop w i entries))
    = map FirstVersion.url_text entries /\
    generation_requests (trace (FirstVersion.download_loop w i entries)) = [] /\
    warning_lines (trace (FirstVersion.download_loop w i entries)) = [].
Proof.
  induction entries as [| e rest IH]; intros i.
  - repeat split.
  - rewrite first_version_loop_cons, trace_pair.
    destruct (IH (S i)) as [Hd [Hf [Hg Hw]]].
    destruct (first_version_item w i e) as [_ [Hf' [Hg' Hw']]].
    rewrite fetched_urls_app, generation_requests_app, warning_lines_app.
    rewrite Hf, Hg, Hw, Hf', Hg', Hw'. repeat split. exact Hd.
Qed.

Lemma first_version_policy (params : Params) :
  snd (FirstVersion.apply_model_policy params)
  = Done (FirstVersion.effective_count (model params) (n params)) /\
  forallb console_event (trace (FirstVersion.apply_model_policy params)) = true.
Proof.
  unfold FirstVersion.apply_model_policy, FirstVersion.effective_count.
  destruct (String.eqb (model params) "dall-e-3"
            && JS.gt (n params) (JS.Int 1))%bool; split; reflexivity.
Qed.

(** The run of the first version once both checks pass. *)
Lemma first_version_call (w : World) (typeError : string) (params : Params)
      (c : ascii) (s : string) :
  JS.truthy (env_OPENAI_API_KEY w) = true ->
  prompt params = Some (String c s) ->
  let request := {| req_model := model params; req_prompt := String c s;
                    req_n := FirstVersion.effective_count (model params) (n params);
                    req_size := size params |} in
  let after := match images_generate w request with
               | inl resp => FirstVersion.handle_response w typeError resp
               | inr error => report_generation_error error
               end in
  FirstVersion.generateImages w typeError params
  = (trace (FirstVersion.apply_model_policy params)
     ++ trace (announce params (req_n request) (String c s))
     ++ Generate request :: trace after,
     snd after).
Proof.
  intros Hk Hp request after. unfold FirstVersion.generateImages.
  rewrite Hk, Hp, bind_ret.
  destruct (first_version_policy params) as [Hn _].
  destruct (FirstVersion.apply_model_policy params) as [tp op].
  simpl in Hn. subst op. rewrite bind_done.
  fold request. fold after. unfold announce, console_log, emit, trace.
  destruct after as [ta oa]. reflexivity.
Qed.

Lemma console_events_silent (t : list Event) :
  forallb console_event t = true ->
  fetched_urls t = [] /\ generation_requests t = [].
Proof.
  intros H. pose proof (console_events_local t H) as Hl.
  destruct (local_events_no_fetch t Hl) as [Hf _].
  destruct (local_events_quiet t Hl) as [Hg _]. now split.
Qed.

(** X18: in the first version a fulfilled call whose response carries a
    [data] array always ends with exit status 0, the empty array included
    (the later version exits with status 1 there), and every entry is
    fetched, once and in order, an entry without URL included: its URL is
    then the text "undefined". *)
Theorem first_version_fetches_every_entry
        (w : World) (typeError : string) (params : Params) (thePrompt : string)
        (resp : ImagesResponse) (entries : list Image) :
  JS.truthy (env_OPENAI_API_KEY w) = true ->
  prompt params = Some thePrompt ->
  thePrompt <> "" ->
  images_generate w {| req_model := model params; req_prompt := thePrompt;
                       req_n := FirstVersion.effective_count (model params) (n params);
                       req_size := size params |} = inl resp ->
  data resp = Some entries ->
  exit_code (FirstVersion.generateImages w typeError params) = 0%Z /\
  fetched_urls (trace (FirstVersion.generateImages w typeError params))
  = map FirstVersion.url_text entries.
Proof.
  intros Hk Hp Hne Hgen Hdata.
  destruct thePrompt as [| c s]; [contradiction |].
  rewrite (first_version_call w typeError params c s Hk Hp). cbv zeta.
  rewrite Hgen. unfold FirstVersion.handle_response. rewrite Hdata.
  destruct (first_version_loop w entries 0) as [Hd [Hf _]].
  destruct (FirstVersion.download_loop w 0 entries) as [tl ol] eqn:Hloop.
  simpl in Hd, Hf. subst ol.
  destruct (first_version_policy params) as [_ Hpol].
  destruct (console_events_silent _ Hpol) as [Hf1 _].
  split; [reflexivity |].
  rewrite trace_pair, !fetched_urls_app, Hf1.
  cbn. rewrite fetched_urls_app, Hf. simpl. now rewrite app_nil_r.
Qed.

(** An empty response, and a response with one entry without URL. *)
Lemma first_version_fetches_every_entry_witness :
  let params := {| prompt := Some "A sunset"; size := "1024x1024";
                   n := JS.Int 1; model := "dall-e-3" |} in
  exit_code (FirstVersion.generateImages
               (sample_world (Some "sk-test") (Some [])) "TypeError" params)
  = 0%Z /\
  fetched_urls (trace (FirstVersion.generateImages
                         (sample_world (Some "sk-test") (Some [ {| url := None |} ]))
                         "TypeError" params))
  = ["undefined"].
Proof.
  intros params. split.
  - apply (first_version_fetches_every_entry
             (sample_world (Some "sk-test") (Some [])) "TypeError" params
             "A sunset" {| data := Some [] |} []);
      [reflexivity | reflexivity | discriminate | reflexivity | reflexivity].
  - apply (first_version_fetches_every_entry
             (sample_world (Some "sk-test") (Some [ {| url := None |} ]))
             "TypeError" params "A sunset"
             {| data := Some [ {| url := None |} ] |} [ {| url := None |} ]);
      [reflexivity | reflexivity | discriminate | reflexivity | reflexivity].
Defined.

Lemma first_version_after_silent (w : World) (typeError : string)
      (request : GenerationRequest) :
  let after := match images_generate w request with
               | inl resp => FirstVersion.handle_response w typeError resp
               | inr error => report_generation_error error
               end in
  generation_requests (trace after) = [] /\ warning_lines (trace after) = [].
Proof.
  cbv zeta. destruct (images_generate w request) as [resp | error].
  - unfold FirstVersion.handle_response.
    destruct (data resp) as [entries |].
    + destruct (first_version_loop w entries 0) as [Hd [_ [Hg Hw]]].
      destruct (FirstVersion.download_loop w 0 entries) as [tl ol].
      simpl in Hd, Hg, Hw. subst ol. cbn.
      rewrite generation_requests_app, warning_lines_app, Hg, Hw.
      split; reflexivity.
    + split; reflexivity.
  - unfold report_generation_error. destruct (response error); split; reflexivity.
Qed.

(** X19: in the first version only dall-e-3 is limited to one image.  With
    the credential set and a non-empty prompt the run makes one generation
    call; for any other model (gpt-image and gpt-image-mini included) the
    count is sent as given and no warning is printed, and for dall-e-3 a
    count above 1 is replaced by 1 after the warning. *)
Theorem first_version_limits_dall_e_3_only
        (w : World) (typeError : string) (params : Params) (thePrompt : string) :
  JS.truthy (env_OPENAI_API_KEY w) = true ->
  prompt params = Some thePrompt ->
  thePrompt <> "" ->
  exists req,
    generation_requests (trace (FirstVersion.generateImages w typeError params))
    = [req] /\
    req_model req = model params /\
    (model params <> "dall-e-3" ->
     req_n req = n params /\
     warning_lines (trace (FirstVersion.generateImages w typeError params)) = []) /\
    (model params = "dall-e-3" ->
     forall k, n params = JS.Int k -> (1 < k)%Z ->
     req_n req = JS.Int 1 /\
     warning_lines (trace (FirstVersion.generateImages w typeError params))
     = ["Warning: dall-e-3 only supports n=1. Setting n to 1."]).
Proof.
  intros Hk Hp Hne. destruct thePrompt as [| c s]; [contradiction |].
  set (request := {| req_model := model params; req_prompt := String c s;
                     req_n := FirstVersion.effective_count (model params) (n params);
                     req_size := size params |}).
  exists request.
  rewrite (first_version_call w typeError params c s Hk Hp). cbv zeta.
  fold request. rewrite trace_pair.
  destruct (first_version_after_silent w typeError request) as [Hg Hw].
  cbv zeta in Hg, Hw.
  destruct (first_version_policy params) as [_ Hpol].
  destruct (console_events_silent _ Hpol) as [_ Hg1].
  rewrite !generation_requests_app, !warning_lines_app, Hg1.
  change (generation_requests (Generate request :: ?t))
    with (request :: generation_requests t).
  change (warning_lines (Generate request :: ?t)) with (warning_lines t).
  rewrite Hg, Hw.
  split; [reflexivity |]. split; [reflexivity |].
  unfold request, FirstVersion.effective_count, FirstVersion.apply_model_policy.
  cbn [req_n]. split.
  - intros Hm. apply String.eqb_neq in Hm. rewrite Hm. split; reflexivity.
  - intros Hm k Hn Hlt. rewrite Hm, Hn. cbn [String.eqb Ascii.eqb Bool.eqb andb].
    assert (Hgt : JS.gt (JS.Int k) (JS.Int 1) = true)
      by (apply gt_one_spec; now exists k).
    rewrite Hgt. split; reflexivity.
Qed.

(** [--model gpt-image --n 3] is sent with a count of 3. *)
Lemma first_version_limits_dall_e_3_only_witness :
  let params := {| prompt := Some "Modern design"; size := "1024x1024";
                   n := JS.Int 3; model := "gpt-image" |} in
  let w := sample_world (Some "sk-test") (Some []) in
  generation_requests (trace (FirstVersion.generateImages w "TypeError" params))
  = [ {| req_model := "gpt-image"; req_prompt := "Modern design";
         req_n := JS.Int 3; req_size := "1024x1024" |} ] /\
  exists req,
    generation_requests (trace (FirstVersion.generateImages w "TypeError" params))
    = [req] /\ req_n req = n params.
Proof.
  intros params w. split; [reflexivity |].
  destruct (first_version_limits_dall_e_3_only w "TypeError" params
              "Modern design" eq_refl eq_refl ltac:(discriminate))
    as [req [Hreq [_ [Hother _]]]].
  exists req. split; [exact Hreq |].
  apply Hother. discriminate.
Defined.

(** X20: in the first version a fulfilled call whose response has no [data]
    ends like a rejected call: reading the length of the missing array
    throws, the [catch] prints the header and the message of that error, the
    process exits with status 1, and nothing is fetched. *)
Theorem first_version_missing_data_is_fatal
        (w : World) (typeError : string) (params : Params) (thePrompt : string)
        (resp : ImagesResponse) :
  JS.truthy (env_OPENAI_API_KEY w) = true ->
  prompt params = Some thePrompt ->
  thePrompt <> "" ->
  images_generate w {| req_model := model params; req_prompt := thePrompt;
                       req_n := FirstVersion.effective_count (model params) (n params);
                       req_size := size params |} = inl resp ->
  data resp = None ->
  exit_code (FirstVersion.generateImages w typeError params) = 1%Z /\
  fetched_urls (trace (FirstVersion.generateImages w typeError params)) = [] /\
  error_lines (trace (FirstVersion.generateImages w typeError params))
  = [(JS.newline ++ "Error generating images:")%string; typeError].
Proof.
  intros Hk Hp Hne Hgen Hdata.
  destruct thePrompt as [| c s]; [contradiction |].
  rewrite (first_version_call w typeError params c s Hk Hp). cbv zeta.
  rewrite Hgen. unfold FirstVersion.handle_response. rewrite Hdata.
  destruct (first_version_policy params) as [_ Hpol].
  destruct (console_events_silent _ Hpol) as [Hf1 _].
  split; [reflexivity |]. rewrite trace_pair. split.
  - rewrite !fetched_urls_app, Hf1. reflexivity.
  - rewrite !error_lines_app.
    unfold FirstVersion.apply_model_policy.
    destruct (String.eqb (model params) "dall-e-3"
              && JS.gt (n params) (JS.Int 1))%bool; reflexivity.
Qed.

(** A response without [data]. *)
Lemma first_version_missing_data_is_fatal_witness :
  let params := {| prompt := Some "A sunset"; size := "1024x1024";
                   n := JS.Int 1; model := "dall-e-3" |} in
  let w := sample_world (Some "sk-test") None in
  exit_code (FirstVersion.generateImages w
               "Cannot read properties of undefined (reading 'length')" params)
  = 1%Z.
Proof.
  intros params w.
  apply (first_version_missing_data_is_fatal w _ params "A sunset"
           {| data := None |});
    [reflexivity | reflexivity | discriminate | reflexivity | reflexivity].
Defined.

Lemma legacy_plain_all (l : list string) (params : Params) :
  Legacy.plain l = true ->
  Legacy.parse_loop params l
  = ([], Done (Legacy.set_prompt params (Legacy.absorb (prompt params) l))).
Proof.
  intros Hplain. rewrite <- (app_nil_r l) at 1.
  now rewrite (legacy_plain_prefix l [] Hplain).
Qed.

(** X21: in the hand-written parser [--size], [--n] and [--model] take the
    next argument as their value, whatever it is, and never as the prompt:
    among plain arguments around the option the prompt is resolved as if the
    option and its value were not there, and the other fields keep their
    defaults. *)
Theorem legacy_value_options (pre post : list string) (value : string) :
  Legacy.plain pre = true ->
  Legacy.plain post = true ->
  let resolved := Legacy.absorb None (pre ++ post) in
  Legacy.parseArgs (pre ++ "--size" :: value :: post)
  = ([], Done {| prompt := resolved; size := value;
                 n := JS.Int 1; model := "dall-e-3" |}) /\
  Legacy.parseArgs (pre ++ "--n" :: value :: post)
  = ([], Done {| prompt := resolved; size := "1024x1024";
                 n := JS.parseInt10 value; model := "dall-e-3" |}) /\
  Legacy.parseArgs (pre ++ "--model" :: value :: post)
  = ([], Done {| prompt := resolved; size := "1024x1024";
                 n := JS.Int 1; model := value |}).
Proof.
  intros Hpre Hpost resolved. subst resolved.
  rewrite legacy_absorb_app. unfold Legacy.parseArgs.
  rewrite !(legacy_plain_prefix pre _ Hpre).
  change (Legacy.parse_loop ?p ("--size" :: value :: post))
    with (Legacy.parse_loop (Legacy.set_size p value) post).
  change (Legacy.parse_loop ?p ("--n" :: value :: post))
    with (Legacy.parse_loop (Legacy.set_n p (JS.parseInt10 value)) post).
  change (Legacy.parse_loop ?p ("--model" :: value :: post))
    with (Legacy.parse_loop (Legacy.set_model p value) post).
  rewrite !(legacy_plain_all post _ Hpost).
  repeat split.
Qed.

(** [openai-image --n 2x "A cat" extra]. *)
Lemma legacy_value_options_witness :
  Legacy.parseArgs ["--n"; "2x"; "A cat"; "extra"]
  = ([], Done {| prompt := Some "A cat"; size := "1024x1024";
                 n := JS.Int 2; model := "dall-e-3" |}).
Proof.
  exact (proj1 (proj2 (legacy_value_options [] ["A cat"; "extra"] "2x"
                         eq_refl eq_refl))).
Defined.
